(** * tif2jpeg: multi-page TIFF to per-page JPEG conversion

    A shallow embedding of [src/tif2jpeg.py]: the file-name scheme of
    [save_frame_shared], and the threads of [tiff2jpeg] (the main thread and
    the jobs of the thread pool) as an interleaving machine that advances one
    thread by one source statement at a time. *)

From Stdlib Require Import ZArith Decimal DecimalFacts DecimalString DecimalZ.
From stdpp Require Import gmap strings list.

(** The path separator of [posixpath]. *)
Definition sep : Ascii.ascii := Ascii.ascii_of_nat 47.

(** ** Output file names (line 17 of the source) *)

Module Naming.

(** [zfill w d]: the digits [d] left-padded with the digit 0 up to the minimum
    width [w]; digits are never dropped. *)
Definition zfill (w : nat) (d : uint) : uint := Nat.iter (w - nb_digits d) D0 d.

(** Python's format specification [05d] applied to an integer: decimal digits,
    zero-padded to a minimum total width of 5, the sign (if any) counted in
    the width and written before the padding. *)
Definition pad_05d (d : int) : int :=
  match d with
  | Pos u => Pos (zfill 5 u)
  | Neg u => Neg (zfill 4 u)
  end.

Definition format_05d (i : Z) : string :=
  NilEmpty.string_of_int (pad_05d (Z.to_int i)).

(** The f-string [f"{i:05d}.jpg"]. *)
Definition frame_name (i : Z) : string := format_05d i +:+ ".jpg".

(** [os.path.join(a, b)] of [posixpath] for two components. *)
Definition startswith_sep (s : string) : bool :=
  match s with
  | String c _ => Ascii.eqb c sep
  | EmptyString => false
  end.

Fixpoint endswith_sep (s : string) : bool :=
  match s with
  | EmptyString => false
  | String c EmptyString => Ascii.eqb c sep
  | String _ r => endswith_sep r
  end.

Definition is_empty (s : string) : bool :=
  match s with EmptyString => true | _ => false end.

Definition path_join (a b : string) : string :=
  if startswith_sep b then b
  else if is_empty a || endswith_sep a then a +:+ b
  else a +:+ "/" +:+ b.

(** [jpeg_filename] of [save_frame_shared]. *)
Definition jpeg_filename (output_folder : string) (i : Z) : string :=
  path_join output_folder (frame_name i).

End Naming.

Import Naming.

Example frame_name_0 : frame_name 0 = "00000.jpg".
Proof. reflexivity. Qed.
Example frame_name_42 : frame_name 42 = "00042.jpg".
Proof. reflexivity. Qed.
Example frame_name_99999 : frame_name 99999 = "99999.jpg".
Proof. reflexivity. Qed.
Example frame_name_100000 : frame_name 100000 = "100000.jpg".
Proof. reflexivity. Qed.
Example frame_name_neg : frame_name (-42) = "-0042.jpg".
Proof. reflexivity. Qed.
Example jpeg_filename_out : jpeg_filename "out" 3 = "out/00003.jpg".
Proof. reflexivity. Qed.
Example jpeg_filename_slash : jpeg_filename "out/" 3 = "out/00003.jpg".
Proof. reflexivity. Qed.
Example jpeg_filename_empty : jpeg_filename "" 3 = "00003.jpg".
Proof. reflexivity. Qed.

(** ** The threads of [tiff2jpeg]

    [tiff2jpeg] runs a main thread (lines 31-48) and, in the pool of
    [ThreadPoolExecutor], one call of [save_frame_shared] per submitted frame
    (lines 17-21).  A state of the machine holds the program point of every
    thread and the objects they share; a step advances one thread, chosen by
    the scheduler, by one statement.

    The libraries are abstract: what [Image.open] finds in a file, whether
    [n_frames], [seek], [convert] and [save] succeed or raise, the bytes that
    [save] writes, and what [os.makedirs] creates or refuses, are the methods
    of a class.  The file system is a set of directories and a map from
    paths to file contents. *)

(** The exceptions that reach a caller or a future. *)
Inductive Exn :=
| DirError        (* raised by [os.makedirs] *)
| OpenError       (* raised by [Image.open] *)
| CountError      (* raised by [img.n_frames] *)
| PageReadError   (* raised by [img.seek] or [img.convert] *)
| WriteError.     (* raised by [frame.save] *)

(** Program points of the main thread: the source line executed next. *)
Inductive MainPc :=
| MLine31                 (* os.makedirs(output_folder, exist_ok=True) *)
| MLine34                 (* with Image.open(tiff_path) as img *)
| MLine35                 (* total_frames = img.n_frames *)
| MLine38                 (* lock = threading.Lock() *)
| MLine41                 (* with tqdm(total=total_frames, ...) as pbar *)
| MLine42                 (* with ThreadPoolExecutor() as executor *)
| MLine44 (k : nat)       (* executor.submit(...) for i = k *)
| MLine47 (k : nat)       (* for _ in futures: pbar.update(1), at index k *)
| MExit42                 (* leaving the executor: shutdown(wait=True) *)
| MExit41                 (* leaving the progress bar: pbar.close() *)
| MExit34                 (* leaving the image: img.close() *)
| MExit34Raised (e : Exn) (* leaving the image with [e] in flight: img.close() *)
| MReturned               (* the function returned None *)
| MRaised (e : Exn).      (* the function raised [e] *)

(** Program points of one call of [save_frame_shared], with its locals. *)
Inductive JobPc {Frame : Type} :=
| JPending                                  (* submitted, in the work queue *)
| JLine17                                   (* jpeg_filename = ... *)
| JLine18 (fn : string)                     (* with lock: (acquire) *)
| JLine19 (fn : string)                     (* img.seek(i) *)
| JLine20 (fn : string)                     (* frame = img.convert("RGB") *)
| JExit18 (fn : string) (r : option Frame)  (* leaving the with: (release);
                                               [None]: an exception is in flight *)
| JLine21 (fn : string) (frame : Frame)     (* frame.save(jpeg_filename, "JPEG") *)
| JFinished (e : option Exn).               (* the future holds None or [e] *)
Arguments JobPc : clear implicits.

(** What a step did, for the history of a run. *)
Inductive Event :=
| EvMakedirs
| EvMakedirsError                 (* [os.makedirs] raised *)
| EvOpen (ok : bool)
| EvNFrames (n : nat)
| EvNFramesError                  (* [img.n_frames] raised *)
| EvNewLock
| EvPbar (total : nat)
| EvPool
| EvSubmit (i : nat)
| EvSubmitted                     (* the list of futures is complete *)
| EvUpdate (n : nat)              (* the counter after the update *)
| EvUpdated                       (* the loop over the futures is over *)
| EvJoin
| EvPbarClose
| EvClose
| EvStart (i : nat)
| EvName (i : nat) (fn : string)
| EvAcquire (i : nat)
| EvSeek (i : nat) (ok : bool)
| EvConvert (i : nat) (cursor : nat) (ok : bool)  (* job, page under the cursor *)
| EvRelease (i : nat)
| EvSave (i : nat) (fn : string)
| EvSaveError (i : nat) (fn : string).  (* [frame.save] raised *)

(** The scheduler's choice: the thread that advances. *)
Inductive Tid :=
| TMain
| TJob (i : nat).

(** The libraries, as far as [tiff2jpeg] uses them: the imaging library and
    the calls of the operating system behind [os.makedirs] and [frame.save]. *)
Class Imaging (Page Frame Content : Type) := {
  (** [Image.open(path)] on a file with content [c]: the pages of the
      image, or [None] when it raises. *)
  image_open : Content → option (list Page);
  (** Whether [img.n_frames] returns the number of pages; it raises
      otherwise (an image of a format without frames, a chain of pages that
      cannot be followed). *)
  count_frames : list Page → bool;
  (** Whether [img.seek] to a page succeeds. *)
  seek_page : Page → bool;
  (** [img.convert("RGB")] on the page under the cursor, [None] when it raises. *)
  convert_rgb : Page → option Frame;
  (** Whether [frame.save(path, "JPEG")] succeeds; it raises otherwise (a
      frame that JPEG cannot hold, a path that cannot be written). *)
  save_ok : string → Frame → bool;
  (** The bytes that [frame.save(_, "JPEG")] writes when it succeeds. *)
  save_jpeg : Frame → Content;
  (** What a [frame.save] that raises leaves at its path, from what was
      there: the library may have created or truncated the file, or removed
      it again. *)
  save_junk : string → Frame → option Content → option Content;
  (** Whether the system refuses to create a directory (other than because
      of its name or of a file in its place). *)
  dir_denied : string → bool;
  (** The directories on the way to a directory, which [os.makedirs] creates
      where they are missing, and the ones that it has created when it
      raises. *)
  parent_dirs : string → gset string;
  partial_dirs : string → gset string;
  (** The directories on the way to a directory are named by proper
      prefixes of its name. *)
  parent_dirs_shorter :
    ∀ name p, p ∈ parent_dirs name → String.length p < String.length name
}.

(** A call of [tiff2jpeg]: its arguments, and the size of the pool that
    [ThreadPoolExecutor()] creates. *)
Record Call := mkCall {
  tiff_path : string;
  output_folder : string;
  max_workers : nat
}.

Section Machine.

Context `{PIL : Imaging Page Frame Content}.
Variable c : Call.

Record State := mkState {
  st_dirs : gset string;               (* file system: directories *)
  st_files : gmap string Content;      (* file system: regular files *)
  st_main : MainPc;
  st_img : option (list Page);         (* img: the pages of the open container *)
  st_cursor : nat;                     (* img: the frame that seek selected *)
  st_closed : bool;                    (* img: closed *)
  st_total : nat;                      (* total_frames *)
  st_locked : bool;                    (* lock *)
  st_pbar : nat;                       (* pbar.n *)
  st_futures : list (JobPc Frame);     (* futures, by frame index *)
  st_trace : list Event                (* history, latest event first *)
}.

Definition set_dirs d (s : State) : State :=
  mkState d (st_files s) (st_main s) (st_img s) (st_cursor s) (st_closed s)
    (st_total s) (st_locked s) (st_pbar s) (st_futures s) (st_trace s).
Definition set_files f (s : State) : State :=
  mkState (st_dirs s) f (st_main s) (st_img s) (st_cursor s) (st_closed s)
    (st_total s) (st_locked s) (st_pbar s) (st_futures s) (st_trace s).
Definition set_main pc (s : State) : State :=
  mkState (st_dirs s) (st_files s) pc (st_img s) (st_cursor s) (st_closed s)
    (st_total s) (st_locked s) (st_pbar s) (st_futures s) (st_trace s).
Definition set_img im (s : State) : State :=
  mkState (st_dirs s) (st_files s) (st_main s) im (st_cursor s) (st_closed s)
    (st_total s) (st_locked s) (st_pbar s) (st_futures s) (st_trace s).
Definition set_cursor c (s : State) : State :=
  mkState (st_dirs s) (st_files s) (st_main s) (st_img s) c (st_closed s)
    (st_total s) (st_locked s) (st_pbar s) (st_futures s) (st_trace s).
Definition set_closed b (s : State) : State :=
  mkState (st_dirs s) (st_files s) (st_main s) (st_img s) (st_cursor s) b
    (st_total s) (st_locked s) (st_pbar s) (st_futures s) (st_trace s).
Definition set_total n (s : State) : State :=
  mkState (st_dirs s) (st_files s) (st_main s) (st_img s) (st_cursor s)
    (st_closed s) n (st_locked s) (st_pbar s) (st_futures s) (st_trace s).
Definition set_locked b (s : State) : State :=
  mkState (st_dirs s) (st_files s) (st_main s) (st_img s) (st_cursor s)
    (st_closed s) (st_total s) b (st_pbar s) (st_futures s) (st_trace s).
Definition set_pbar n (s : State) : State :=
  mkState (st_dirs s) (st_files s) (st_main s) (st_img s) (st_cursor s)
    (st_closed s) (st_total s) (st_locked s) n (st_futures s) (st_trace s).
Definition set_futures fs (s : State) : State :=
  mkState (st_dirs s) (st_files s) (st_main s) (st_img s) (st_cursor s)
    (st_closed s) (st_total s) (st_locked s) (st_pbar s) fs (st_trace s).
Definition emit ev (s : State) : State :=
  mkState (st_dirs s) (st_files s) (st_main s) (st_img s) (st_cursor s)
    (st_closed s) (st_total s) (st_locked s) (st_pbar s) (st_futures s)
    (ev :: st_trace s).

(** The state in which [tiff2jpeg] is called, on a given file system. *)
Definition init (d : gset string) (f : gmap string Content) : State :=
  mkState d f MLine31 None 0 false 0 false 0 [] [].

(** *** The shared image *)

(** [img.seek(i)]: the new cursor, or [None] when it raises (closed image, no
    such frame, unreadable frame). *)
Definition img_seek (s : State) (i : nat) : option nat :=
  match st_img s with
  | Some pages =>
      if st_closed s then None
      else match pages !! i with
           | Some p => if seek_page p then Some i else None
           | None => None
           end
  | None => None
  end.

(** [img.convert("RGB")]: a private copy of the frame under the cursor. *)
Definition img_convert (s : State) : option Frame :=
  match st_img s with
  | Some pages =>
      if st_closed s then None
      else match pages !! st_cursor s with
           | Some p => convert_rgb p
           | None => None
           end
  | None => None
  end.

(** *** The pool *)

Definition is_pending (pc : JobPc Frame) : bool :=
  match pc with JPending => true | _ => false end.
Definition is_finished (pc : JobPc Frame) : bool :=
  match pc with JFinished _ => true | _ => false end.
(** A job that occupies a worker thread. *)
Definition is_running (pc : JobPc Frame) : bool :=
  negb (is_pending pc) && negb (is_finished pc).
(** A job inside the [with lock:] block. *)
Definition in_section (pc : JobPc Frame) : bool :=
  match pc with
  | JLine19 _ | JLine20 _ | JExit18 _ _ => true
  | _ => false
  end.

Definition running (s : State) : nat :=
  length (filter (λ pc, is_running pc = true) (st_futures s)).

(** A worker takes the pending job [i] when it is the oldest pending one and
    fewer than [max_workers] jobs occupy a worker. *)
Definition can_start (s : State) (i : nat) : bool :=
  forallb (λ pc, negb (is_pending pc)) (take i (st_futures s))
  && (running s <? max_workers c).

(** *** Steps *)

(** [os.makedirs(output_folder, exist_ok=True)] on the files [f]: it raises
    on the empty name, on the name of a regular file, when a regular file is
    on the way to the folder, and when the system refuses; a directory of
    this name is no error. *)
Definition makedirs_ok (f : gmap string Content) : bool :=
  negb (is_empty (output_folder c))
  && negb (bool_decide (is_Some (f !! output_folder c)))
  && bool_decide (set_Forall (λ p, ¬ is_Some (f !! p))
                    (parent_dirs (output_folder c)))
  && negb (dir_denied (output_folder c)).

Definition step_main (s : State) : option State :=
  match st_main s with
  | MLine31 =>
      if makedirs_ok (st_files s) then
        Some (emit EvMakedirs
               (set_main MLine34
                 (set_dirs ({[output_folder c]} ∪ parent_dirs (output_folder c)
                              ∪ st_dirs s) s)))
      else
        Some (emit EvMakedirsError
               (set_main (MRaised DirError)
                 (set_dirs (partial_dirs (output_folder c) ∪ st_dirs s) s)))
  | MLine34 =>
      match st_files s !! tiff_path c ≫= image_open with
      | Some pages =>
          Some (emit (EvOpen true) (set_main MLine35 (set_img (Some pages) s)))
      | None =>
          Some (emit (EvOpen false) (set_main (MRaised OpenError) s))
      end
  | MLine35 =>
      let n := from_option length 0 (st_img s) in
      if count_frames (default [] (st_img s)) then
        Some (emit (EvNFrames n) (set_main MLine38 (set_total n s)))
      else Some (emit EvNFramesError (set_main (MExit34Raised CountError) s))
  | MLine38 =>
      Some (emit EvNewLock (set_main MLine41 (set_locked false s)))
  | MLine41 =>
      Some (emit (EvPbar (st_total s)) (set_main MLine42 (set_pbar 0 s)))
  | MLine42 =>
      Some (emit EvPool (set_main (MLine44 0) (set_futures [] s)))
  | MLine44 k =>
      if decide (k < st_total s) then
        Some (emit (EvSubmit k)
               (set_main (MLine44 (S k))
                 (set_futures (st_futures s ++ [JPending]) s)))
      else Some (emit EvSubmitted (set_main (MLine47 0) s))
  | MLine47 k =>
      if decide (k < length (st_futures s)) then
        Some (emit (EvUpdate (S (st_pbar s)))
               (set_main (MLine47 (S k)) (set_pbar (S (st_pbar s)) s)))
      else Some (emit EvUpdated (set_main MExit42 s))
  | MExit42 =>
      if forallb is_finished (st_futures s) then
        Some (emit EvJoin (set_main MExit41 s))
      else None
  | MExit41 => Some (emit EvPbarClose (set_main MExit34 s))
  | MExit34 => Some (emit EvClose (set_main MReturned (set_closed true s)))
  | MExit34Raised e =>
      Some (emit EvClose (set_main (MRaised e) (set_closed true s)))
  | MReturned => None
  | MRaised _ => None
  end.

Definition set_job (i : nat) (pc : JobPc Frame) (s : State) : State :=
  set_futures (<[i := pc]> (st_futures s)) s.

Definition step_job (s : State) (i : nat) (pc : JobPc Frame) : option State :=
  match pc with
  | JPending =>
      if can_start s i then Some (emit (EvStart i) (set_job i JLine17 s))
      else None
  | JLine17 =>
      let fn := jpeg_filename (output_folder c) (Z.of_nat i) in
      Some (emit (EvName i fn) (set_job i (JLine18 fn) s))
  | JLine18 fn =>
      if st_locked s then None
      else Some (emit (EvAcquire i) (set_job i (JLine19 fn) (set_locked true s)))
  | JLine19 fn =>
      match img_seek s i with
      | Some k =>
          Some (emit (EvSeek i true) (set_job i (JLine20 fn) (set_cursor k s)))
      | None =>
          Some (emit (EvSeek i false) (set_job i (JExit18 fn None) s))
      end
  | JLine20 fn =>
      let r := img_convert s in
      Some (emit (EvConvert i (st_cursor s) (bool_decide (is_Some r)))
             (set_job i (JExit18 fn r) s))
  | JExit18 fn r =>
      let pc' := match r with
                 | Some frame => JLine21 fn frame
                 | None => JFinished (Some PageReadError)
                 end in
      Some (emit (EvRelease i) (set_job i pc' (set_locked false s)))
  | JLine21 fn frame =>
      if save_ok fn frame then
        Some (emit (EvSave i fn)
               (set_job i (JFinished None)
                 (set_files (<[fn := save_jpeg frame]> (st_files s)) s)))
      else
        Some (emit (EvSaveError i fn)
               (set_job i (JFinished (Some WriteError))
                 (set_files (partial_alter (save_junk fn frame) fn (st_files s))
                    s)))
  | JFinished _ => None
  end.

Definition step (s : State) (t : Tid) : option State :=
  match t with
  | TMain => step_main s
  | TJob i =>
      match st_futures s !! i with
      | Some pc => step_job s i pc
      | None => None
      end
  end.

(** A run under a schedule: the threads advance in the order given; [None]
    when the schedule picks a thread that cannot advance. *)
Fixpoint run (s : State) (sched : list Tid) : option State :=
  match sched with
  | [] => Some s
  | t :: sched' =>
      match step s t with
      | Some s' => run s' sched'
      | None => None
      end
  end.

(** The call is over: the main thread returned or raised. *)
Definition finished (s : State) : bool :=
  match st_main s with
  | MReturned | MRaised _ => true
  | _ => false
  end.

End Machine.

(** ** Histories

    The history of a run is read per thread: each event belongs to the main
    thread or to one job. *)

Global Instance Tid_eq_dec : EqDecision Tid.
Proof. solve_decision. Defined.

Definition event_tid (ev : Event) : Tid :=
  match ev with
  | EvStart i | EvName i _ | EvAcquire i | EvSeek i _ | EvConvert i _ _
  | EvRelease i | EvSave i _ | EvSaveError i _ => TJob i
  | _ => TMain
  end.

(** The events of one thread, latest first. *)
Definition proj (t : Tid) (tr : list Event) : list Event :=
  filter (λ ev, event_tid ev = t) tr.

(** Whether job [i] holds the lock after the history [tr]: its latest lock
    event is an acquire. *)
Fixpoint holding (i : nat) (tr : list Event) : bool :=
  match tr with
  | [] => false
  | EvAcquire j :: tr' => if decide (j = i) then true else holding i tr'
  | EvRelease j :: tr' => if decide (j = i) then false else holding i tr'
  | _ :: tr' => holding i tr'
  end.

Definition is_open_ev (ev : Event) : bool :=
  match ev with EvOpen true => true | _ => false end.
Definition is_close_ev (ev : Event) : bool :=
  match ev with EvClose => true | _ => false end.
Definition is_update_ev (ev : Event) : bool :=
  match ev with EvUpdate _ => true | _ => false end.
Definition is_image_ev (ev : Event) : bool :=
  match ev with EvSeek _ _ | EvConvert _ _ _ => true | _ => false end.


(** What the caller of [tiff2jpeg] gets. *)
Inductive Result :=
| RNone               (* the call returned, with the value None *)
| RRaise (e : Exn).   (* the call raised *)

Section Histories.

Context `{PIL : Imaging Page Frame Content}.
Variable c : Call.

(** The path of frame [i]. *)
Definition frame_path (i : nat) : string :=
  jpeg_filename (output_folder c) (Z.of_nat i).

(** The frame that [save_frame_shared] extracts from a page: [seek] and then
    [convert] have to succeed. *)
Definition page_frame (p : option Page) : option Frame :=
  match p with
  | Some pg => if seek_page pg then convert_rgb pg else None
  | None => None
  end.

Definition page_seekable (p : option Page) : bool :=
  match p with Some pg => seek_page pg | None => false end.

(** How the job of index [i] on page [p] ends: the value in its future. *)
Definition outcome (i : nat) (p : option Page) : option Exn :=
  match page_frame p with
  | Some frame =>
      if save_ok (frame_path i) frame then None else Some WriteError
  | None => Some PageReadError
  end.

(** The history of job [i] on page [p] when it stands at [pc], latest first. *)
Definition job_history (i : nat) (p : option Page) (pc : JobPc Frame)
    : list Event :=
  let h17 := [EvStart i] in
  let h18 := EvName i (frame_path i) :: h17 in
  let h19 := EvAcquire i :: h18 in
  let h20 := EvSeek i true :: h19 in
  let hexit (ok : bool) :=
    if ok then EvConvert i i true :: h20
    else if page_seekable p then EvConvert i i false :: h20
         else EvSeek i false :: h19 in
  match pc with
  | JPending => []
  | JLine17 => h17
  | JLine18 _ => h18
  | JLine19 _ => h19
  | JLine20 _ => h20
  | JExit18 _ (Some _) => hexit true
  | JExit18 _ None => hexit false
  | JLine21 _ _ => EvRelease i :: hexit true
  | JFinished None => EvSave i (frame_path i) :: EvRelease i :: hexit true
  | JFinished (Some WriteError) =>
      EvSaveError i (frame_path i) :: EvRelease i :: hexit true
  | JFinished (Some _) => EvRelease i :: hexit false
  end.

(** The history of the main thread on a container of [n] pages when it stands
    at [pc], latest first. *)
Definition main_history (n : nat) (pc : MainPc) : list Event :=
  let h34 := [EvMakedirs] in
  let h35 := EvOpen true :: h34 in
  let h38 := EvNFrames n :: h35 in
  let h41 := EvNewLock :: h38 in
  let h42 := EvPbar n :: h41 in
  let h44 k := reverse (EvSubmit <$> seq 0 k) ++ EvPool :: h42 in
  let h47 k := reverse (EvUpdate <$> seq 1 k) ++ EvSubmitted :: h44 n in
  let hx42 := EvUpdated :: h47 n in
  let hx41 := EvJoin :: hx42 in
  let hx34 := EvPbarClose :: hx41 in
  match pc with
  | MLine31 => []
  | MLine34 => h34
  | MLine35 => h35
  | MLine38 => h38
  | MLine41 => h41
  | MLine42 => h42
  | MLine44 k => h44 k
  | MLine47 k => h47 k
  | MExit42 => hx42
  | MExit41 => hx41
  | MExit34 => hx34
  | MExit34Raised _ => EvNFramesError :: h35
  | MReturned => EvClose :: hx34
  | MRaised DirError => [EvMakedirsError]
  | MRaised CountError => EvClose :: EvNFramesError :: h35
  | MRaised _ => EvOpen false :: h34
  end.

(** The pages of an image whose frames can be counted. *)
Definition countable (pages : list Page) : option (list Page) :=
  if count_frames pages then Some pages else None.

(** The image that line 34 opens on the files [f0], if the call gets there
    and [Image.open] succeeds. *)
Definition opened (f0 : gmap string Content) : option (list Page) :=
  if makedirs_ok c f0 then f0 !! tiff_path c ≫= image_open else None.

(** The container that the call works on, on the files [f0]: the pages of
    the image, if lines 31 to 35 succeed. *)
Definition container (f0 : gmap string Content) : option (list Page) :=
  opened f0 ≫= countable.

(** The exception of a call that does not get to a container: the first of
    lines 31, 34 and 35 that raises. *)
Definition early_error (f0 : gmap string Content) : Exn :=
  if makedirs_ok c f0 then
    match f0 !! tiff_path c ≫= image_open with
    | Some _ => CountError
    | None => OpenError
    end
  else DirError.

(** What the path of index [i] holds after the job of page [p], from what it
    held before. *)
Definition file_after (i : nat) (p : option Page) (old : option Content)
    : option Content :=
  match page_frame p with
  | Some frame =>
      if save_ok (frame_path i) frame then Some (save_jpeg frame)
      else save_junk (frame_path i) frame old
  | None => old
  end.

(** The files after a call on the files [f0] and the pages [pages]: the frame
    of every page that can be extracted and saved, under the path of its
    index, and what a failed [save] leaves. *)
Definition write_frame (pages : list Page) (i : nat)
    (f : gmap string Content) : gmap string Content :=
  match page_frame (pages !! i) with
  | Some frame =>
      if save_ok (frame_path i) frame
      then <[frame_path i := save_jpeg frame]> f
      else partial_alter (save_junk (frame_path i) frame) (frame_path i) f
  | None => f
  end.

Definition expected_files (f0 : gmap string Content) (pages : list Page)
    : gmap string Content :=
  foldr (write_frame pages) f0 (seq 0 (length pages)).

(** The file system after a call on the directories [d0] and files [f0]. *)
Definition expected_fs (d0 : gset string) (f0 : gmap string Content)
    : gset string * gmap string Content :=
  (if makedirs_ok c f0
   then {[output_folder c]} ∪ parent_dirs (output_folder c) ∪ d0
   else partial_dirs (output_folder c) ∪ d0,
   match container f0 with
   | Some pages => expected_files f0 pages
   | None => f0
   end).

(** The result of the call in a state, once it is over. *)
Definition result (s : State (Page:=Page) (Frame:=Frame) (Content:=Content))
    : option Result :=
  match st_main s with
  | MReturned => Some RNone
  | MRaised e => Some (RRaise e)
  | _ => None
  end.

(** The jobs that are done, and those that failed. *)
Definition finished_jobs (s : State (Page:=Page) (Frame:=Frame) (Content:=Content))
    : nat :=
  length (filter (λ pc, is_finished pc = true) (st_futures s)).


(** *** A measure of the work left *)

Definition job_rank (pc : JobPc Frame) : nat :=
  match pc with
  | JPending => 7
  | JLine17 => 6
  | JLine18 _ => 5
  | JLine19 _ => 4
  | JLine20 _ => 3
  | JExit18 _ _ => 2
  | JLine21 _ _ => 1
  | JFinished _ => 0
  end.

Definition main_rank (s : State (Page:=Page) (Frame:=Frame) (Content:=Content))
    : nat :=
  let n := st_total s in
  match st_main s with
  | MLine31 => 10 * from_option length 0 (container (st_files s)) + 11
  | MLine34 =>
      10 * from_option length 0
             ((st_files s !! tiff_path c ≫= image_open) ≫= countable) + 10
  | MLine35 => 10 * from_option length 0 (st_img s ≫= countable) + 9
  | MLine38 => 10 * n + 8
  | MLine41 => 10 * n + 7
  | MLine42 => 10 * n + 6
  | MLine44 k => 9 * (n - k) + n + 5
  | MLine47 k => (n - k) + 4
  | MExit42 => 3
  | MExit41 => 2
  | MExit34 => 1
  | MExit34Raised _ => 1
  | MReturned => 0
  | MRaised _ => 0
  end.

Definition work_left (s : State (Page:=Page) (Frame:=Frame) (Content:=Content))
    : nat :=
  main_rank s + sum_list (job_rank <$> st_futures s).

End Histories.

Global Arguments main_history : simpl never.
Global Arguments job_history : simpl never.

(** ** The invariant of the machine *)

Section Invariant.

Context `{PIL : Imaging Page Frame Content}.
Variable c : Call.
(** The file system on which [tiff2jpeg] is called. *)
Variable d0 : gset string.
Variable f0 : gmap string Content.

Implicit Types s : State (Page:=Page) (Frame:=Frame) (Content:=Content).
Implicit Types pc : JobPc Frame.

(** How far the main thread is. *)
Definition stage (m : MainPc) : nat :=
  match m with
  | MLine31 => 0
  | MLine34 => 1
  | MRaised _ => 1
  | MLine35 => 2
  | MLine38 => 3
  | MLine41 => 4
  | MLine42 => 5
  | MLine44 _ => 6
  | MLine47 _ => 7
  | MExit42 => 8
  | MExit41 => 9
  | MExit34 => 10
  | MExit34Raised _ => 2
  | MReturned => 11
  end.

Definition at_line31 (m : MainPc) : bool :=
  match m with MLine31 => true | _ => false end.
Definition returned (m : MainPc) : bool :=
  match m with MReturned => true | _ => false end.
(** Where the image has been opened, and where it is closed. *)
Definition opened_at (m : MainPc) : bool :=
  match m with
  | MRaised CountError => true
  | _ => bool_decide (2 ≤ stage m)
  end.
Definition closed_at (m : MainPc) : bool :=
  match m with MReturned | MRaised CountError => true | _ => false end.
(** A job that has written, or tried to write, its file. *)
Definition wrote (pc : JobPc Frame) : bool :=
  match pc with
  | JFinished None | JFinished (Some WriteError) => true
  | _ => false
  end.

(** The pages of the image object, none before it is opened. *)
Definition img_pages s : list Page := default [] (st_img s).

(** What the locals of job [i] hold at [pc]. *)
Definition job_ok s (i : nat) pc : Prop :=
  let p := img_pages s !! i in
  match pc with
  | JPending | JLine17 => True
  | JLine18 fn | JLine19 fn => fn = frame_path c i
  | JLine20 fn => fn = frame_path c i ∧ st_cursor s = i ∧ page_seekable p = true
  | JExit18 fn r => fn = frame_path c i ∧ page_frame p = r
  | JLine21 fn frame => fn = frame_path c i ∧ page_frame p = Some frame
  | JFinished e => e = outcome c i p
  end.

Record Inv s : Prop := {
  inv_dirs :
    st_dirs s = match st_main s with
                | MLine31 => d0
                | MRaised DirError => partial_dirs (output_folder c) ∪ d0
                | _ => {[output_folder c]} ∪ parent_dirs (output_folder c) ∪ d0
                end;
  inv_early : stage (st_main s) ≤ 5 → st_futures s = [] ∧ st_files s = f0;
  inv_made :
    1 ≤ stage (st_main s) → st_main s ≠ MRaised DirError →
    makedirs_ok c f0 = true;
  inv_opened :
    2 ≤ stage (st_main s) → st_img s = opened c f0 ∧ is_Some (st_img s);
  inv_img :
    3 ≤ stage (st_main s) → st_img s = container c f0 ∧ is_Some (st_img s);
  inv_raised :
    ∀ e, st_main s = MRaised e →
      match e with
      | DirError => makedirs_ok c f0 = false
      | OpenError => makedirs_ok c f0 = true ∧ opened c f0 = None
      | CountError =>
          ∃ pages, opened c f0 = Some pages ∧ count_frames pages = false
      | _ => False
      end;
  inv_unwind :
    ∀ e, st_main s = MExit34Raised e →
      e = CountError ∧ count_frames (img_pages s) = false;
  inv_total : 3 ≤ stage (st_main s) → st_total s = length (img_pages s);
  inv_total0 : stage (st_main s) ≤ 2 → st_total s = 0;
  inv_nfut :
    match st_main s with
    | MLine44 k => length (st_futures s) = k ∧ k ≤ st_total s
    | _ => 7 ≤ stage (st_main s) → length (st_futures s) = st_total s
    end;
  inv_closed : st_closed s = closed_at (st_main s);
  inv_joined :
    9 ≤ stage (st_main s) → Forall (λ pc, is_finished pc = true) (st_futures s);
  inv_pbar :
    match st_main s with
    | MLine47 k => st_pbar s = k ∧ k ≤ st_total s
    | _ => (8 ≤ stage (st_main s) → st_pbar s = st_total s)
           ∧ (5 ≤ stage (st_main s) ≤ 6 → st_pbar s = 0)
    end;
  inv_mutex :
    ∀ i j pci pcj,
      st_futures s !! i = Some pci → st_futures s !! j = Some pcj →
      in_section pci = true → in_section pcj = true → i = j;
  inv_locked :
    st_locked s = true ↔
    ∃ i pc, st_futures s !! i = Some pc ∧ in_section pc = true;
  inv_job : ∀ i pc, st_futures s !! i = Some pc → job_ok s i pc;
  inv_saved :
    ∀ i, st_futures s !! i = Some (JFinished None) →
      ∃ frame, page_frame (img_pages s !! i) = Some frame
               ∧ st_files s !! frame_path c i = Some (save_jpeg frame);
  inv_junk :
    ∀ i, st_futures s !! i = Some (JFinished (Some WriteError)) →
      ∃ frame, page_frame (img_pages s !! i) = Some frame
               ∧ st_files s !! frame_path c i
                 = save_junk (frame_path c i) frame (f0 !! frame_path c i);
  inv_other :
    ∀ p, (∀ i pc, st_futures s !! i = Some pc → wrote pc = true →
            p ≠ frame_path c i) →
      st_files s !! p = f0 !! p;
  inv_main_hist :
    proj TMain (st_trace s) = main_history (st_total s) (st_main s);
  inv_job_hist :
    ∀ i, proj (TJob i) (st_trace s) =
         match st_futures s !! i with
         | Some pc => job_history c i (img_pages s !! i) pc
         | None => []
         end
}.

(** A job that has come to line 21: its save is under way or over. *)
Definition at_save (pc : JobPc Frame) : bool :=
  match pc with
  | JLine21 _ _ | JFinished None | JFinished (Some WriteError) => true
  | _ => false
  end.

(** The pool in a state: no more jobs on workers than there are workers, and
    the jobs still in the queue are the last ones submitted. *)
Definition pool_ok s : Prop :=
  running s ≤ max_workers c ∧
  ∀ i j pc, i ≤ j → st_futures s !! i = Some JPending →
    st_futures s !! j = Some pc → pc = JPending.


End Invariant.

(** ** A small instance

    Pages hold a number or are unreadable; a JPEG file holds the number of its
    frame. *)

Module Demo.

Inductive page :=
| Good (px : nat)         (* seek and convert succeed *)
| BadData (px : nat)      (* seek succeeds, convert raises *)
| BadHeader               (* seek raises, and so does counting the frames *)
| Single (px : nat).      (* the one frame of an image without frames:
                             seek and convert succeed, n_frames raises *)

Inductive content :=
| Tiff (pages : list page)
| Jpeg (px : nat)
| Junk.

(** The directories on the way to a path: its prefixes before a separator. *)
Fixpoint ancestors_from (pre s : string) : gset string :=
  match s with
  | EmptyString => ∅
  | String a s' =>
      (if Ascii.eqb a sep && negb (is_empty pre) && negb (endswith_sep pre)
       then {[pre]} else ∅)
      ∪ ancestors_from (pre +:+ String a EmptyString) s'
  end.

Lemma ancestors_from_shorter pre s p :
  p ∈ ancestors_from pre s →
  String.length p < String.length pre + String.length s.
Proof.
  revert pre. induction s as [|a s IH]; intros pre; simpl.
  - by intros ?%elem_of_empty.
  - intros [Hp|Hp]%elem_of_union.
    + destruct (Ascii.eqb a sep && negb (is_empty pre)
                && negb (endswith_sep pre)).
      * apply elem_of_singleton in Hp as ->. lia.
      * by apply elem_of_empty in Hp.
    + apply IH in Hp.
      assert (String.length (pre +:+ String a EmptyString)
              = S (String.length pre)) as Hl
        by (clear; induction pre; simpl; congruence).
      lia.
Qed.

(** A file of pages opens as these pages, a JPEG file as one image without
    frames, anything else not at all.  The frames are counted by following
    the chain of the pages.  A frame of 1000 or more is too large for JPEG:
    [save] raises, and leaves no file where there was none and a damaged
    one where there was one.  No directory may be created under
    ["/sys"]. *)
Global Instance imaging : Imaging page nat content := {|
  image_open f :=
    match f with
    | Tiff pages => Some pages
    | Jpeg px => Some [Single px]
    | Junk => None
    end;
  count_frames pages :=
    forallb (λ p, match p with Good _ | BadData _ => true | _ => false end)
      pages;
  seek_page p := match p with BadHeader => false | _ => true end;
  convert_rgb p :=
    match p with Good px | Single px => Some px | _ => None end;
  save_ok _ frame := frame <? 1000;
  save_jpeg := Jpeg;
  save_junk _ _ old := match old with Some _ => Some Junk | None => None end;
  dir_denied name := String.prefix "/sys" name;
  parent_dirs name := ancestors_from EmptyString name;
  partial_dirs _ := ∅;
  parent_dirs_shorter := ancestors_from_shorter EmptyString
|}.

Definition call (workers : nat) : Call := mkCall "in.tif" "out" workers.

(** A file system that holds the container only. *)
Definition disk (pages : list page) : gmap string content :=
  {[ "in.tif" := Tiff pages ]}.

Definition start (pages : list page) : State :=
  init (Page:=page) (Frame:=nat) ∅ (disk pages).

(** Containers: three readable pages; five pages of which page 3 cannot be
    decoded; five readable pages. *)
Definition pages3 : list page := [Good 10; Good 11; Good 12].
Definition pages5 : list page := [Good 10; Good 11; Good 12; BadData 13; Good 14].
Definition pages3_big : list page := [Good 10; Good 5000; Good 12].

(** The main thread up to the end of the loop over the futures, for [n] pages. *)
Definition main_first (n : nat) : list Tid := replicate (6 + (n + 1) + (n + 1)) TMain.
(** The main thread from the shutdown of the pool to the return. *)
Definition main_last : list Tid := replicate 3 TMain.
(** A job from its start to its end: seven steps on a readable page, six
    when [convert] raises, five when [seek] raises. *)
Definition job_steps (p : page) : nat :=
  match p with Good _ | Single _ => 7 | BadData _ => 6 | BadHeader => 5 end.
Definition job_all (i : nat) (p : page) : list Tid := replicate (job_steps p) (TJob i).

(** The schedule that runs the main thread as far as it gets, then the jobs
    one after the other, then the rest of the main thread. *)
Definition in_turn (pages : list page) : list Tid :=
  main_first (length pages) ++ concat (imap job_all pages) ++ main_last.

(** A schedule for three readable pages in which the jobs overlap with the
    main thread and with each other. *)
Definition interleaved3 : list Tid :=
  replicate 7 TMain
  ++ [TJob 0; TMain; TJob 0; TJob 1; TMain; TJob 1; TJob 0; TMain; TJob 0]
  ++ [TMain; TJob 0; TJob 0; TJob 1; TMain; TJob 0; TJob 2; TJob 1; TJob 2]
  ++ [TMain; TJob 1; TJob 1; TJob 2; TJob 1; TMain; TJob 2; TJob 2; TJob 2]
  ++ [TJob 2] ++ main_last.

End Demo.

(** ** Facts about the file-name scheme *)

Section NamingFacts.

Lemma append_cons c (s t : string) : String c s +:+ t = String c (s +:+ t).
Proof. reflexivity. Qed.

Lemma append_length (s t : string) :
  String.length (s +:+ t) = String.length s + String.length t.
Proof.
  induction s as [|c s IH]; [reflexivity|].
  rewrite append_cons. simpl. by rewrite IH.
Qed.

(** Appending the same suffix to two strings keeps them apart. *)
Lemma append_inj_l (s1 s2 t : string) : s1 +:+ t = s2 +:+ t → s1 = s2.
Proof.
  revert s2. induction s1 as [|c s1 IH]; intros [|c2 s2] H.
  - reflexivity.
  - apply (f_equal String.length) in H.
    rewrite !append_length in H. simpl in H. lia.
  - apply (f_equal String.length) in H.
    rewrite !append_length in H. simpl in H. lia.
  - rewrite !append_cons in H. injection H as -> H. f_equal. by apply IH.
Qed.

Lemma of_uint_zfill w u : Z.of_uint (zfill w u) = Z.of_uint u.
Proof.
  unfold zfill. induction (w - nb_digits u) as [|k IH]; [reflexivity|].
  simpl. exact IH.
Qed.

(** Padding does not change the number that the digits denote. *)
Lemma of_int_pad_05d d : Z.of_int (pad_05d d) = Z.of_int d.
Proof. destruct d as [u|u]; simpl; by rewrite of_uint_zfill. Qed.

(** Reading the formatted digits back gives the index. *)
Lemma format_05d_read (i : Z) :
  Z.of_int <$> NilEmpty.int_of_string (format_05d i) = Some i.
Proof.
  unfold format_05d. rewrite NilEmpty.isi. simpl.
  by rewrite of_int_pad_05d, DecimalZ.of_to.
Qed.

Lemma format_05d_inj (i j : Z) : format_05d i = format_05d j → i = j.
Proof.
  intros H. pose proof (format_05d_read i) as Hi.
  rewrite H, format_05d_read in Hi. congruence.
Qed.

Lemma frame_name_inj (i j : Z) : frame_name i = frame_name j → i = j.
Proof. intros H. by apply format_05d_inj, (append_inj_l _ _ ".jpg"). Qed.

(** A formatted index starts with a digit or a sign, never with the separator. *)
Lemma string_of_uint_nosep u : startswith_sep (NilEmpty.string_of_uint u) = false.
Proof. by destruct u. Qed.

Lemma frame_name_nosep (i : Z) : startswith_sep (frame_name i) = false.
Proof.
  unfold frame_name, format_05d.
  destruct (pad_05d (Z.to_int i)) as [u|u]; [|reflexivity].
  destruct u; reflexivity.
Qed.

Lemma path_join_frame_name out i :
  jpeg_filename out i =
    if is_empty out || endswith_sep out then out +:+ frame_name i
    else out +:+ "/" +:+ frame_name i.
Proof. unfold jpeg_filename, path_join. by rewrite frame_name_nosep. Qed.

Lemma jpeg_filename_inj out (i j : Z) :
  jpeg_filename out i = jpeg_filename out j → i = j.
Proof.
  rewrite !path_join_frame_name.
  destruct (is_empty out || endswith_sep out); intros H.
  - by apply frame_name_inj, (inj (String.app out)).
  - apply (inj (String.app out)), (inj (String.app "/")) in H.
    by apply frame_name_inj.
Qed.

(** The written path is never the output folder itself. *)
Lemma frame_name_length i : 0 < String.length (frame_name i).
Proof. unfold frame_name. rewrite append_length. simpl. lia. Qed.

Lemma jpeg_filename_longer out i :
  String.length out < String.length (jpeg_filename out i).
Proof.
  pose proof (frame_name_length i).
  rewrite path_join_frame_name.
  destruct (is_empty out || endswith_sep out);
    rewrite ?append_length; simpl; lia.
Qed.

Lemma jpeg_filename_neq_folder out i : jpeg_filename out i ≠ out.
Proof.
  intros H. pose proof (jpeg_filename_longer out i) as Hl.
  rewrite H in Hl. lia.
Qed.

(** *** Width of the digits *)

Lemma string_of_uint_length u :
  String.length (NilEmpty.string_of_uint u) = nb_digits u.
Proof. induction u; simpl; congruence. Qed.

Lemma nb_digits_zfill w u : nb_digits (zfill w u) = w `max` nb_digits u.
Proof. unfold zfill. rewrite nb_digits_iter_D0. lia. Qed.

Lemma of_uint_acc_bounds u (acc : positive) :
  (Z.pos acc * 10 ^ Z.of_nat (nb_digits u) ≤ Z.pos (Pos.of_uint_acc u acc)
   < (Z.pos acc + 1) * 10 ^ Z.of_nat (nb_digits u))%Z.
Proof.
  revert acc.
  induction u as [|u IH|u IH|u IH|u IH|u IH|u IH|u IH|u IH|u IH|u IH];
    intros acc; cbn [Pos.of_uint_acc nb_digits];
    [ rewrite Z.pow_0_r; lia
    | match goal with
      | |- context [Pos.of_uint_acc u ?a] => specialize (IH a)
      end;
      rewrite Nat2Z.inj_succ, Z.pow_succ_r by lia;
      assert (0 < 10 ^ Z.of_nat (nb_digits u))%Z by (apply Z.pow_pos_nonneg; lia);
      nia .. ].
Qed.

(** Digits denote a number below ten to the number of digits ... *)
Lemma of_uint_upper u : (Z.of_uint u < 10 ^ Z.of_nat (nb_digits u))%Z.
Proof.
  induction u as [|u IH|u IH|u IH|u IH|u IH|u IH|u IH|u IH|u IH|u IH];
    [ reflexivity
    | cbn [nb_digits]; rewrite Nat2Z.inj_succ, Z.pow_succ_r by lia;
      assert (0 < 10 ^ Z.of_nat (nb_digits u))%Z by (apply Z.pow_pos_nonneg; lia);
      change (Z.of_uint (D0 u)) with (Z.of_uint u); lia
    | cbn [nb_digits]; rewrite Nat2Z.inj_succ, Z.pow_succ_r by lia;
      unfold Z.of_uint; cbn [Pos.of_uint Z.of_N];
      match goal with
      | |- context [Pos.of_uint_acc u ?a] =>
          pose proof (of_uint_acc_bounds u a)
      end; lia .. ].
Qed.

(** ... and, once leading zeros are gone, at least ten to that number minus one. *)
Lemma of_uint_lower u :
  nzhead u ≠ Nil → (10 ^ (Z.of_nat (nb_digits (nzhead u)) - 1) ≤ Z.of_uint u)%Z.
Proof.
  induction u as [|u IH|u IH|u IH|u IH|u IH|u IH|u IH|u IH|u IH|u IH];
    [ done
    | exact IH
    | intros _; cbn [nzhead nb_digits]; rewrite Nat2Z.inj_succ;
      replace (Z.succ (Z.of_nat (nb_digits u)) - 1)%Z
        with (Z.of_nat (nb_digits u)) by lia;
      unfold Z.of_uint; cbn [Pos.of_uint Z.of_N];
      match goal with
      | |- context [Pos.of_uint_acc u ?a] =>
          pose proof (of_uint_acc_bounds u a)
      end;
      assert (0 < 10 ^ Z.of_nat (nb_digits u))%Z by (apply Z.pow_pos_nonneg; lia);
      nia .. ].
Qed.

Lemma to_uint_nzhead p : nzhead (Pos.to_uint p) = Pos.to_uint p.
Proof.
  pose proof (DecimalPos.Unsigned.to_of (Pos.to_uint p)) as H.
  rewrite DecimalPos.Unsigned.of_to in H. simpl in H.
  assert (Hnz : nzhead (Pos.to_uint p) ≠ Nil).
  { intros E. unfold unorm in H. rewrite E in H.
    by apply (DecimalPos.Unsigned.to_uint_nonzero p). }
  rewrite <- (unorm_nzhead _ Hnz). by symmetry.
Qed.

Lemma nb_digits_pos p : 0 < nb_digits (Pos.to_uint p).
Proof.
  pose proof (DecimalPos.Unsigned.to_uint_nonnil p).
  destruct (Pos.to_uint p); simpl; [done|lia..].
Qed.

(** The number of decimal digits of a positive number, by its size. *)
Lemma nb_digits_to_uint p (k : nat) :
  nb_digits (Pos.to_uint p) ≤ k ↔ (Z.pos p < 10 ^ Z.of_nat k)%Z.
Proof.
  pose proof (DecimalZ.of_to (Z.pos p)) as Hp. simpl in Hp.
  pose proof (of_uint_upper (Pos.to_uint p)) as Hup.
  pose proof (of_uint_lower (Pos.to_uint p)) as Hlo.
  rewrite to_uint_nzhead in Hlo.
  specialize (Hlo (DecimalPos.Unsigned.to_uint_nonnil p)).
  pose proof (nb_digits_pos p) as Hpos.
  rewrite Hp in Hup, Hlo. split; intros H.
  - eapply Z.lt_le_trans; [exact Hup|]. apply Z.pow_le_mono_r; lia.
  - destruct (decide (nb_digits (Pos.to_uint p) ≤ k)) as [|Hn]; [done|].
    exfalso.
    assert (10 ^ Z.of_nat k ≤ 10 ^ (Z.of_nat (nb_digits (Pos.to_uint p)) - 1))%Z
      by (apply Z.pow_le_mono_r; lia).
    lia.
Qed.

Lemma string_of_uint_zfill_length w u :
  String.length (NilEmpty.string_of_uint (zfill w u)) = w `max` nb_digits u.
Proof. by rewrite string_of_uint_length, nb_digits_zfill. Qed.

(** The digits of an index take at least five characters; exactly five up to
    99999 and more from 100000 on. *)
Lemma format_05d_min_width (i : Z) : 5 ≤ String.length (format_05d i).
Proof.
  unfold format_05d. destruct (Z.to_int i) as [u|u]; simpl;
    rewrite string_of_uint_zfill_length; lia.
Qed.

Lemma format_05d_width_small (i : Z) :
  (0 ≤ i < 100000)%Z → String.length (format_05d i) = 5.
Proof.
  intros Hi. destruct i as [|p|p]; [reflexivity| |lia].
  unfold format_05d. simpl. rewrite string_of_uint_zfill_length.
  assert (nb_digits (Pos.to_uint p) ≤ 5); [|lia].
  apply nb_digits_to_uint. change (10 ^ Z.of_nat 5)%Z with 100000%Z. lia.
Qed.

Lemma format_05d_width_large (i : Z) :
  (100000 ≤ i)%Z → 5 < String.length (format_05d i).
Proof.
  intros Hi. destruct i as [|p|p]; [lia| |lia].
  unfold format_05d. simpl. rewrite string_of_uint_zfill_length.
  destruct (decide (nb_digits (Pos.to_uint p) ≤ 5)) as [Hn|]; [|lia].
  apply nb_digits_to_uint in Hn.
  change (10 ^ Z.of_nat 5)%Z with 100000%Z in Hn. lia.
Qed.

End NamingFacts.


(** ** Invariants of the machine *)

Section Invariants.

Context `{PIL : Imaging Page Frame Content}.
Variable c : Call.
(** The file system on which [tiff2jpeg] is called. *)
Variable d0 : gset string.
Variable f0 : gmap string Content.

Implicit Types s : State (Page:=Page) (Frame:=Frame) (Content:=Content).
Implicit Types pc : JobPc Frame.

Local Abbreviation fpath := (frame_path c).
Local Abbreviation Inv := (Inv c d0 f0).

Lemma inv_init : Inv (init d0 f0).
Proof.
  split; simpl; try done; try lia.
  split; [done|]. by intros (i & pc & [=] & _).
Qed.

(** The call works on a container when lines 31 to 35 succeed. *)
Lemma container_Some pages :
  container c f0 = Some pages ↔
  makedirs_ok c f0 = true ∧ f0 !! tiff_path c ≫= image_open = Some pages ∧
  count_frames pages = true.
Proof.
  unfold container, opened, countable.
  destruct (makedirs_ok c f0); simpl;
    [|split; [done|by intros [? _]]].
  destruct (f0 !! tiff_path c ≫= image_open) as [l|]; simpl;
    [|split; [done|by intros (_ & ? & _)]].
  destruct (count_frames l) eqn:Hl; split.
  - by intros [= ->].
  - by intros (_ & [= ->] & _).
  - done.
  - intros (_ & [= ->] & ?). congruence.
Qed.

Lemma container_opened pages :
  container c f0 = Some pages → opened c f0 = Some pages.
Proof.
  intros (Hmk & Hop & _)%container_Some. unfold opened. by rewrite Hmk.
Qed.

(** *** Steps of the main thread *)

Lemma proj_cons t ev tr :
  proj t (ev :: tr) = if decide (event_tid ev = t) then ev :: proj t tr else proj t tr.
Proof. unfold proj. rewrite filter_cons. done. Qed.

Lemma forallb_Forall {A} (f : A → bool) (l : list A) :
  forallb f l = true ↔ Forall (λ x, f x = true) l.
Proof.
  rewrite forallb_forall, Forall_forall. by setoid_rewrite list_elem_of_In.
Qed.

Lemma main_history_submit n k :
  main_history n (MLine44 (S k)) = EvSubmit k :: main_history n (MLine44 k).
Proof.
  unfold main_history. by rewrite seq_S, fmap_app, reverse_app.
Qed.

Lemma main_history_update n k :
  main_history n (MLine47 (S k)) = EvUpdate (S k) :: main_history n (MLine47 k).
Proof.
  unfold main_history. by rewrite seq_S, fmap_app, reverse_app.
Qed.

Ltac feed_lia :=
  repeat match goal with
  | H : _ ≤ _ → _ |- _ => first [specialize (H ltac:(lia)) | clear H]
  | H : _ ≤ _ ≤ _ → _ |- _ => first [specialize (H ltac:(lia)) | clear H]
  end.

Ltac main_cases s HI Hstep :=
  destruct HI as [Hdirs Hearly Hmade Hopened Himg Hraised Hunwind Htotal
                 Htotal0 Hnfut Hclosed Hjoined Hpbar Hmutex Hlocked Hjob
                 Hsaved Hjunk Hother Hmhist Hjhist];
  let m := fresh "m" in
  destruct s as [d f m im cur cl tot lk pb futs tr];
  unfold step_main in Hstep; unfold img_pages, job_ok in *; simpl in *;
  destruct m; simplify_eq/=;
  try match goal with
      | H : ∀ e, MExit34Raised ?x = MExit34Raised e → _ |- _ =>
          destruct (H x eq_refl) as [-> ?]
      end;
  repeat case_match; simplify_eq/=;
  feed_lia; destruct_and?; simplify_eq/=; unfold img_pages, job_ok, container in *; simpl.

Ltac nil_lookup :=
  match goal with H : [] !! _ = Some _ |- _ => by rewrite lookup_nil in H end.

Ltac snoc_cases :=
  repeat match goal with
  | H : (_ ++ [JPending]) !! _ = Some _ |- _ =>
      apply lookup_snoc_Some in H as [[? H]|[? ?]]; simplify_eq/=
  end.

Lemma inv_step_main s s' : Inv s → step_main c s = Some s' → Inv s'.
Proof.
  intros HI Hstep. split.
  - (* dirs *) main_cases s HI Hstep; done.
  - (* early *) main_cases s HI Hstep; try done; try lia.
  - (* made *) main_cases s HI Hstep; try done; intros _ _; by apply Hmade.
  - (* opened *) main_cases s HI Hstep; try done; try lia.
    intros _. split; [|done]. unfold opened. by rewrite Hmade.
  - (* img *) main_cases s HI Hstep; try done; try lia.
    intros _. split; [|done].
    match goal with H : is_Some (opened c f0) |- _ => destruct H as [l Hl] end.
    rewrite Hl in *. simpl in *. unfold countable.
    by match goal with H : count_frames _ = true |- _ => rewrite H end.
  - (* raised *) main_cases s HI Hstep; try done; intros e [= <-].
    + done.
    + split; [by apply Hmade|]. unfold opened. by rewrite Hmade.
    + match goal with H : is_Some (opened c f0) |- _ => destruct H as [l Hl] end.
      rewrite Hl in *. eauto.
  - (* unwind *) main_cases s HI Hstep; try done. by intros e [= <-].
  - (* total *) main_cases s HI Hstep; try done; try lia.
    intros _. by destruct (opened c f0).
  - (* total0 *) main_cases s HI Hstep; try done; try lia.
  - (* nfut *) main_cases s HI Hstep; try done; try lia; try (intros; lia).
    rewrite length_app; simpl; lia.
  - (* closed *) main_cases s HI Hstep; done.
  - (* joined *) main_cases s HI Hstep; try done; try lia; intros _.
    by apply forallb_Forall.
  - (* pbar *) main_cases s HI Hstep; try done; try lia; try (intros; lia).
  - (* mutex *) main_cases s HI Hstep; try done; intros; snoc_cases; eauto.
  - (* locked *) main_cases s HI Hstep; try done.
    + split; [done|]. intros (i & pc & Hi & _). by rewrite lookup_nil in Hi.
    + rewrite Hlocked. split; intros (i & pc & Hi & Hin).
      * exists i, pc. split; [by apply lookup_app_l_Some|done].
      * snoc_cases. eauto.
  - (* job *) main_cases s HI Hstep; try done; intros; try nil_lookup; snoc_cases;
      try done; by apply Hjob.
  - (* saved *) main_cases s HI Hstep; try done; intros; try nil_lookup; snoc_cases;
      by apply Hsaved.
  - (* junk *) main_cases s HI Hstep; try done; intros; try nil_lookup; snoc_cases;
      by apply Hjunk.
  - (* other *) main_cases s HI Hstep; try done; intros p Hp; apply Hother;
      intros i pc Hi; apply Hp; try nil_lookup; by apply lookup_app_l_Some.
  - main_cases s HI Hstep; rewrite proj_cons; simpl;
      rewrite ?decide_True by done; rewrite Hmhist; try done;
      rewrite ?main_history_submit, ?main_history_update; try done;
      match goal with
      | |- _ :: main_history ?n (_ ?k) = _ => by replace k with n by lia
      end.
  - main_cases s HI Hstep; intros i; rewrite proj_cons; simpl;
      rewrite ?decide_False by done; rewrite ?Hjhist; try done.
    destruct (decide (i < length futs)) as [Hlt|Hge];
      [by rewrite lookup_app_l|].
    rewrite (lookup_ge_None_2 futs i) by lia.
    destruct (decide (i = length futs)) as [->|Hne].
    + by rewrite list_lookup_middle.
    + rewrite lookup_ge_None_2; [done|]. rewrite length_app; simpl; lia.
Qed.

(** *** Steps of a job *)

Lemma frame_path_inj i j : fpath i = fpath j → i = j.
Proof. unfold frame_path. intros H%jpeg_filename_inj. lia. Qed.

(** A job that is not finished keeps the main thread between the submissions
    and the shutdown of the pool, with the image open. *)
Lemma job_live s i pc :
  Inv s → st_futures s !! i = Some pc → is_finished pc = false →
  6 ≤ stage (st_main s) ≤ 8 ∧ st_closed s = false ∧
  ∃ pages, st_img s = Some pages.
Proof.
  intros HI Hi Hpc.
  assert (6 ≤ stage (st_main s)) as Hlo.
  { destruct (decide (stage (st_main s) ≤ 5)) as [Hle|]; [|lia].
    apply (inv_early _ _ _ _ HI) in Hle as [Hnil _].
    by rewrite Hnil, lookup_nil in Hi. }
  assert (stage (st_main s) ≤ 8) as Hhi.
  { destruct (decide (9 ≤ stage (st_main s))) as [Hge|]; [|lia].
    apply (inv_joined _ _ _ _ HI) in Hge.
    pose proof (Forall_lookup_1 _ _ _ _ Hge Hi) as Hfin. simpl in Hfin.
    congruence. }
  split; [lia|]. split.
  - rewrite (inv_closed _ _ _ _ HI). revert Hlo Hhi.
    destruct (st_main s); simpl; try done; lia.
  - destruct (inv_img _ _ _ _ HI) as [_ [pages Hp]]; [lia|]. eauto.
Qed.

Lemma step_job_frame s i pc s' :
  step_job c s i pc = Some s' →
  st_main s' = st_main s ∧ st_dirs s' = st_dirs s ∧ st_img s' = st_img s ∧
  st_total s' = st_total s ∧ st_closed s' = st_closed s ∧
  st_pbar s' = st_pbar s ∧ length (st_futures s') = length (st_futures s).
Proof.
  intros Hstep. destruct s as [d f m im cur cl tot lk pb futs tr].
  destruct pc; simpl in Hstep; repeat case_match; simplify_eq/=;
    by rewrite length_insert.
Qed.

(** The lock discipline of a job step: the lock is taken on entering the
    [with] block, kept inside, and dropped on leaving. *)
Definition lock_step (before after : bool) (lk lk' : bool) : Prop :=
  match before, after with
  | false, true => lk = false ∧ lk' = true
  | true, false => lk' = false
  | _, _ => lk' = lk
  end.

Lemma step_job_lock s i pc s' :
  step_job c s i pc = Some s' →
  ∃ pc', st_futures s' = <[i:=pc']> (st_futures s) ∧
         lock_step (in_section pc) (in_section pc') (st_locked s) (st_locked s').
Proof.
  intros Hstep. destruct s as [d f m im cur cl tot lk pb futs tr].
  destruct pc; simpl in Hstep; repeat case_match; simplify_eq/=;
    eexists; (split; [reflexivity|]); done.
Qed.

Lemma mutex_step s i pc s' :
  Inv s → st_futures s !! i = Some pc → step_job c s i pc = Some s' →
  ∀ j k pcj pck,
    st_futures s' !! j = Some pcj → st_futures s' !! k = Some pck →
    in_section pcj = true → in_section pck = true → j = k.
Proof.
  intros HI Hi (pc' & -> & Hlk)%step_job_lock j k pcj pck Hj Hk Hsj Hsk.
  apply list_lookup_insert_Some in Hj as [(<- & <- & _)|[Hij Hj]];
  apply list_lookup_insert_Some in Hk as [(<- & <- & _)|[Hik Hk]]; try done.
  - destruct (in_section pc) eqn:Hs.
    + by apply (inv_mutex _ _ _ _ HI i k pc pck).
    + rewrite Hsj in Hlk. destruct Hlk as [Hfree _].
      assert (st_locked s = true); [|congruence].
      apply (inv_locked _ _ _ _ HI). eauto.
  - destruct (in_section pc) eqn:Hs.
    + by apply (inv_mutex _ _ _ _ HI j i pcj pc).
    + rewrite Hsk in Hlk. destruct Hlk as [Hfree _].
      assert (st_locked s = true); [|congruence].
      apply (inv_locked _ _ _ _ HI). eauto.
  - by apply (inv_mutex _ _ _ _ HI j k pcj pck).
Qed.

Lemma locked_step s i pc s' :
  Inv s → st_futures s !! i = Some pc → step_job c s i pc = Some s' →
  st_locked s' = true ↔
  ∃ j pcj, st_futures s' !! j = Some pcj ∧ in_section pcj = true.
Proof.
  intros HI Hi (pc' & -> & Hlk)%step_job_lock.
  pose proof (lookup_lt_Some _ _ _ Hi) as Hlen.
  assert (∀ j pcj, j ≠ i →
    <[i:=pc']> (st_futures s) !! j = Some pcj ↔ st_futures s !! j = Some pcj)
    as Hne by (intros; by rewrite list_lookup_insert_ne).
  pose proof (list_lookup_insert_eq (st_futures s) i pc' Hlen) as Heq.
  destruct (in_section pc) eqn:Hs, (in_section pc') eqn:Hs'; simpl in Hlk.
  - assert (st_locked s = true) as Hl by (apply (inv_locked _ _ _ _ HI); eauto).
    rewrite Hlk, Hl. split; [eauto|done].
  - rewrite Hlk. split; [done|]. intros (j & pcj & Hj & Hsj).
    destruct (decide (j = i)) as [->|Hji]; [congruence|].
    apply Hne in Hj; [|done].
    by destruct (Hji (inv_mutex _ _ _ _ HI j i pcj pc Hj Hi Hsj Hs)).
  - destruct Hlk as [_ ->]. split; [eauto|done].
  - rewrite Hlk, (inv_locked _ _ _ _ HI). split; intros (j & pcj & Hj & Hsj).
    + destruct (decide (j = i)) as [->|Hji]; [congruence|].
      exists j, pcj. by rewrite Hne.
    + destruct (decide (j = i)) as [->|Hji]; [congruence|].
      exists j, pcj. by rewrite <- Hne.
Qed.

Lemma job_ok_frame s s' j pcj :
  st_img s' = st_img s →
  st_cursor s' = st_cursor s ∨ in_section pcj = false →
  job_ok c s j pcj → job_ok c s' j pcj.
Proof.
  intros Ei Hcur. unfold job_ok, img_pages. rewrite Ei.
  destruct pcj; try done. destruct Hcur as [->|]; done.
Qed.

(** What a job step leaves in the locals of the job, and when it moves the
    cursor of the shared image. *)
Lemma step_job_ok s i pc s' :
  Inv s → st_futures s !! i = Some pc → step_job c s i pc = Some s' →
  ∃ pc', st_futures s' = <[i:=pc']> (st_futures s) ∧ job_ok c s' i pc' ∧
         (st_cursor s' = st_cursor s ∨ in_section pc = true).
Proof.
  intros HI Hi Hstep.
  assert (is_finished pc = false) as Hpc by (by destruct pc).
  destruct (job_live _ _ _ HI Hi Hpc) as (Hst & Hcl & pages & Him).
  pose proof (inv_job _ _ _ _ HI i pc Hi) as Hok.
  destruct s as [d f m im cur cl tot lk pb futs tr].
  unfold job_ok, img_pages in *. simpl in *. subst im cl.
  destruct pc; simpl in Hstep; unfold img_seek, img_convert in Hstep;
    simpl in Hstep; repeat case_match; simplify_eq/=;
    eexists; (split; [reflexivity|]); simpl.
  all: destruct_and?; simplify_eq/=; repeat split; eauto.
  all: unfold outcome, page_frame, page_seekable in *; repeat case_match;
    simplify_eq/=; eauto; try congruence.
Qed.

(** Only the last statement of a job touches a file. *)
Lemma step_job_files s i pc s' :
  step_job c s i pc = Some s' →
  ∃ pc', st_futures s' = <[i:=pc']> (st_futures s) ∧
    ((st_files s' = st_files s ∧ wrote pc' = false) ∨
     (∃ fn frame, pc = JLine21 fn frame ∧ save_ok fn frame = true ∧
        pc' = JFinished None ∧
        st_files s' = <[fn:=save_jpeg frame]> (st_files s)) ∨
     (∃ fn frame, pc = JLine21 fn frame ∧ save_ok fn frame = false ∧
        pc' = JFinished (Some WriteError) ∧
        st_files s' = partial_alter (save_junk fn frame) fn (st_files s))).
Proof.
  intros Hstep. destruct s as [d f m im cur cl tot lk pb futs tr].
  destruct pc; simpl in Hstep; repeat case_match; simplify_eq/=;
    eexists; (split; [reflexivity|]); simpl;
    first [ left; split; reflexivity
          | right; left; do 2 eexists; repeat split; done
          | right; right; do 2 eexists; repeat split; done ].
Qed.

(** A job step adds one event of that job to the history, the next one of the
    history of the job. *)
Lemma step_job_trace s i pc s' :
  Inv s → st_futures s !! i = Some pc → step_job c s i pc = Some s' →
  ∃ pc' ev, st_futures s' = <[i:=pc']> (st_futures s) ∧
    st_trace s' = ev :: st_trace s ∧ event_tid ev = TJob i ∧
    job_history c i (img_pages s !! i) pc'
    = ev :: job_history c i (img_pages s !! i) pc.
Proof.
  intros HI Hi Hstep.
  assert (is_finished pc = false) as Hpc by (by destruct pc).
  destruct (job_live _ _ _ HI Hi Hpc) as (Hst & Hcl & pages & Him).
  pose proof (inv_job _ _ _ _ HI i pc Hi) as Hok.
  destruct s as [d f m im cur cl tot lk pb futs tr].
  unfold job_ok, img_pages in *. simpl in *. subst im cl.
  destruct pc; simpl in Hstep; unfold img_seek, img_convert in Hstep;
    simpl in Hstep; repeat case_match; simplify_eq/=;
    do 2 eexists; (split; [reflexivity|]); simpl;
    (split; [reflexivity|]); (split; [reflexivity|]).
  all: destruct_and?; simplify_eq/=; unfold job_history; try done.
  all: unfold page_frame, page_seekable in *; repeat case_match;
    simplify_eq/=; eauto; try congruence.
Qed.

Lemma inv_step_job s i pc s' :
  Inv s → st_futures s !! i = Some pc → step_job c s i pc = Some s' → Inv s'.
Proof.
  intros HI Hi Hstep.
  assert (is_finished pc = false) as Hpc by (by destruct pc).
  destruct (job_live _ _ _ HI Hi Hpc) as (Hst & Hcl & pages & Him).
  destruct (step_job_frame _ _ _ _ Hstep)
    as (Em & Ed & Ei & Et & Ec & Ep & El).
  assert (img_pages s' = img_pages s) as Epg by (unfold img_pages; by rewrite Ei).
  pose proof (lookup_lt_Some _ _ _ Hi) as Hlen.
  assert (∀ j pcj, st_futures s !! j = Some pcj → wrote pcj = true → j ≠ i)
    as Hni.
  { intros j pcj Hj Hw ->. rewrite Hi in Hj. simplify_eq. by destruct pcj. }
  assert (st_files s !! fpath i = f0 !! fpath i) as Hold.
  { apply (inv_other _ _ _ _ HI). intros j pcj Hj Hw Heq%frame_path_inj.
    by apply (Hni j pcj). }
  split.
  - (* dirs *) rewrite Em, Ed. apply HI.
  - (* early *) rewrite Em. intros; lia.
  - (* made *) rewrite Em. apply HI.
  - (* opened *) rewrite Em, Ei. apply HI.
  - (* img *) rewrite Em, Ei. apply HI.
  - (* raised *) rewrite Em. apply HI.
  - (* unwind *) rewrite Em, Epg. apply HI.
  - (* total *) rewrite Em, Et, Epg. apply HI.
  - (* total0 *) rewrite Em. intros; lia.
  - (* nfut *) rewrite Em, Et, El. apply HI.
  - (* closed *) rewrite Em, Ec. apply HI.
  - (* joined *) rewrite Em. intros; lia.
  - (* pbar *) rewrite Em, Et, Ep. apply HI.
  - by eapply mutex_step.
  - by eapply locked_step.
  - destruct (step_job_ok _ _ _ _ HI Hi Hstep) as (pc' & Ef & Hok & Hcur).
    intros j pcj. rewrite Ef.
    intros [(<- & <- & _)|[Hij Hj]]%list_lookup_insert_Some; [done|].
    apply (job_ok_frame s); [done| |by apply HI].
    destruct Hcur as [?|Hs]; [by left|right].
    destruct (in_section pcj) eqn:Hsj; [|done].
    by destruct (Hij (inv_mutex _ _ _ _ HI i j pc pcj Hi Hj Hs Hsj)).
  - (* saved *)
    destruct (step_job_files _ _ _ _ Hstep)
      as (pc' & Ef & [[Efl Hnf]|[(fn & frame & -> & Hok & -> & Efl)
                                |(fn & frame & -> & Hok & -> & Efl)]]);
      intros j; rewrite Ef, Efl, Epg;
      intros [(<- & Hj & _)|[Hij Hj]]%list_lookup_insert_Some.
    + by rewrite Hj in Hnf.
    + by apply HI.
    + destruct (inv_job _ _ _ _ HI i _ Hi) as [-> Hfr].
      exists frame. by rewrite lookup_insert_eq.
    + destruct (inv_saved _ _ _ _ HI j Hj) as (fr & Hfr & Hfl).
      exists fr. split; [done|]. rewrite lookup_insert_ne; [done|].
      destruct (inv_job _ _ _ _ HI i _ Hi) as [-> _].
      by intros ?%frame_path_inj.
    + done.
    + destruct (inv_saved _ _ _ _ HI j Hj) as (fr & Hfr & Hfl).
      exists fr. split; [done|]. rewrite lookup_partial_alter_ne; [done|].
      destruct (inv_job _ _ _ _ HI i _ Hi) as [-> _].
      by intros ?%frame_path_inj.
  - (* junk *)
    destruct (step_job_files _ _ _ _ Hstep)
      as (pc' & Ef & [[Efl Hnf]|[(fn & frame & -> & Hok & -> & Efl)
                                |(fn & frame & -> & Hok & -> & Efl)]]);
      intros j; rewrite Ef, Efl, Epg;
      intros [(<- & Hj & _)|[Hij Hj]]%list_lookup_insert_Some.
    + by rewrite Hj in Hnf.
    + by apply HI.
    + done.
    + destruct (inv_junk _ _ _ _ HI j Hj) as (fr & Hfr & Hfl).
      exists fr. split; [done|]. rewrite lookup_insert_ne; [done|].
      destruct (inv_job _ _ _ _ HI i _ Hi) as [-> _].
      by intros ?%frame_path_inj.
    + destruct (inv_job _ _ _ _ HI i _ Hi) as [-> Hfr].
      exists frame. split; [done|].
      by rewrite lookup_partial_alter_eq, Hold.
    + destruct (inv_junk _ _ _ _ HI j Hj) as (fr & Hfr & Hfl).
      exists fr. split; [done|]. rewrite lookup_partial_alter_ne; [done|].
      destruct (inv_job _ _ _ _ HI i _ Hi) as [-> _].
      by intros ?%frame_path_inj.
  - (* other *)
    assert (∀ p, (∀ j pcj, st_futures s' !! j = Some pcj → wrote pcj = true →
                    p ≠ fpath j) →
                 st_files s !! p = f0 !! p) as Hkeep.
    { intros p Hp. apply (inv_other _ _ _ _ HI). intros j pcj Hj Hw.
      apply (Hp j pcj); [|done].
      destruct (step_job_files _ _ _ _ Hstep) as (pc' & Ef & _).
      rewrite Ef, list_lookup_insert_ne; [done|].
      intros Hij. by apply (Hni j pcj Hj Hw). }
    destruct (step_job_files _ _ _ _ Hstep)
      as (pc' & Ef & [[Efl Hnf]|[(fn & frame & -> & Hok & -> & Efl)
                                |(fn & frame & -> & Hok & -> & Efl)]]);
      intros p Hp; rewrite Efl.
    + by apply Hkeep.
    + destruct (inv_job _ _ _ _ HI i _ Hi) as [-> _].
      rewrite lookup_insert_ne; [by apply Hkeep|].
      intros <-. apply (Hp i (JFinished None)); [|done..]. rewrite Ef.
      by apply list_lookup_insert_eq.
    + destruct (inv_job _ _ _ _ HI i _ Hi) as [-> _].
      rewrite lookup_partial_alter_ne; [by apply Hkeep|].
      intros <-. apply (Hp i (JFinished (Some WriteError))); [|done..].
      rewrite Ef. by apply list_lookup_insert_eq.
  - destruct (step_job_trace _ _ _ _ HI Hi Hstep)
      as (pc' & ev & Ef & Etr & Hev & Hh).
    rewrite Etr, proj_cons, Hev, decide_False by done.
    rewrite Em, Et. apply HI.
  - destruct (step_job_trace _ _ _ _ HI Hi Hstep)
      as (pc' & ev & Ef & Etr & Hev & Hh).
    intros j. rewrite Etr, proj_cons, Hev, Ef, Epg.
    destruct (decide (TJob i = TJob j)) as [[= <-]|Hne].
    + rewrite list_lookup_insert_eq by done.
      rewrite (inv_job_hist _ _ _ _ HI), Hi. by rewrite Hh.
    + rewrite list_lookup_insert_ne by congruence. apply HI.
Qed.

(** Every state that a run reaches from the call satisfies the invariant. *)
Lemma inv_step s t s' : Inv s → step c s t = Some s' → Inv s'.
Proof.
  intros HI Hstep. destruct t as [|i]; simpl in Hstep.
  - by eapply inv_step_main.
  - destruct (st_futures s !! i) as [pc|] eqn:Hi; [|done].
    by eapply inv_step_job.
Qed.

Lemma inv_run s sched s' : Inv s → run c s sched = Some s' → Inv s'.
Proof.
  revert s. induction sched as [|t sched IH]; intros s HI Hrun; simpl in Hrun.
  - by simplify_eq.
  - destruct (step c s t) as [s1|] eqn:Hstep; [|done].
    eapply IH; [|done]. by eapply inv_step.
Qed.

Lemma run_app s sched1 sched2 :
  run c s (sched1 ++ sched2) = run c s sched1 ≫= λ s1, run c s1 sched2.
Proof.
  revert s. induction sched1 as [|t sched1 IH]; intros s; simpl; [done|].
  destruct (step c s t); simpl; [apply IH|done].
Qed.

(** Every step adds one event, of the thread that advanced. *)
Lemma step_trace s t s' :
  step c s t = Some s' →
  ∃ ev, st_trace s' = ev :: st_trace s ∧ event_tid ev = t.
Proof.
  intros Hstep. destruct t as [|i]; simpl in Hstep.
  - destruct s as [d f m im cur cl tot lk pb futs tr].
    unfold step_main in Hstep. simpl in Hstep.
    destruct m; repeat case_match; simplify_eq/=; eauto.
  - destruct (st_futures s !! i) as [pc|] eqn:Hi; [|done].
    destruct s as [d f m im cur cl tot lk pb futs tr].
    destruct pc; simpl in Hstep; repeat case_match; simplify_eq/=; eauto.
Qed.

Lemma run_trace s sched s' :
  run c s sched = Some s' →
  ∃ evs, st_trace s' = evs ++ st_trace s ∧ length evs = length sched.
Proof.
  revert s. induction sched as [|t sched IH]; intros s Hrun; simpl in Hrun.
  - simplify_eq. by exists [].
  - destruct (step c s t) as [s1|] eqn:Hstep; [|done].
    destruct (IH _ Hrun) as (evs & -> & Hlen).
    destruct (step_trace _ _ _ Hstep) as (ev & -> & _).
    exists (evs ++ [ev]). rewrite <- app_assoc, length_app. simpl.
    split; [done|lia].
Qed.

(** Every point of a history is the step of a run: the events before it are
    the history of the state in which the step was taken. *)
Lemma run_trace_split s0 sched s post ev pre :
  run c s0 sched = Some s →
  st_trace s = post ++ ev :: pre →
  length (st_trace s0) ≤ length pre →
  ∃ sched1 t sched2 sa sb,
    sched = sched1 ++ t :: sched2 ∧
    run c s0 sched1 = Some sa ∧ step c sa t = Some sb ∧
    run c sb sched2 = Some s ∧
    st_trace sa = pre ∧ st_trace sb = ev :: pre ∧
    length sched2 = length post.
Proof.
  revert s0. induction sched as [|t sched IH]; intros s0 Hrun Htr Hlen;
    simpl in Hrun.
  - simplify_eq. apply (f_equal length) in Htr.
    rewrite length_app in Htr. simpl in Htr. lia.
  - destruct (step c s0 t) as [s1|] eqn:Hstep; [|done].
    destruct (step_trace _ _ _ Hstep) as (e & He & _).
    destruct (run_trace _ _ _ Hrun) as (evs & Hevs & Hl).
    destruct (decide (length (st_trace s0) = length pre)) as [Heq|Hne].
    + rewrite Hevs, He in Htr.
      assert (evs ++ [e] = post ++ [ev] ∧ st_trace s0 = pre) as [H1 H2].
      { apply app_inj_2; [done|]. by rewrite <- !app_assoc. }
      apply app_inj_2 in H1 as [-> [= ->]]; [|done].
      exists [], t, sched, s0, s1. simpl. rewrite He, H2. eauto 10.
    + destruct (IH s1 Hrun Htr) as
        (sched1 & t' & sched2 & sa & sb & -> & H1 & H2 & H3 & H4 & H5 & H6).
      { rewrite He. simpl. lia. }
      exists (t :: sched1), t', sched2, sa, sb. simpl. rewrite Hstep.
      eauto 10.
Qed.

(** *** The events of a step *)

Lemma step_job_event s i pc s' ev :
  step_job c s i pc = Some s' → st_trace s' = ev :: st_trace s →
  match ev with
  | EvStart j => j = i ∧ pc = JPending
  | EvName j fn => j = i ∧ pc = JLine17
  | EvAcquire j => j = i ∧ ∃ fn, pc = JLine18 fn
  | EvSeek j _ => j = i ∧ ∃ fn, pc = JLine19 fn
  | EvConvert j k _ => j = i ∧ k = st_cursor s ∧ ∃ fn, pc = JLine20 fn
  | EvRelease j => j = i ∧ ∃ fn r, pc = JExit18 fn r
  | EvSave j fn => j = i ∧ ∃ frame, pc = JLine21 fn frame
  | EvSaveError j fn => j = i ∧ ∃ frame, pc = JLine21 fn frame
  | _ => False
  end.
Proof.
  intros Hstep Htr. destruct s as [d f m im cur cl tot lk pb futs tr].
  destruct pc; simpl in Hstep; repeat case_match; simplify_eq/=; eauto.
Qed.

Lemma step_main_event s s' ev :
  step_main c s = Some s' → st_trace s' = ev :: st_trace s →
  event_tid ev = TMain ∧
  match ev with
  | EvOpen ok => st_main s = MLine34
  | EvNFrames n => st_main s = MLine35
  | EvSubmit k => st_main s = MLine44 k
  | EvUpdate n => n = S (st_pbar s) ∧ st_pbar s' = n ∧ ∃ k, st_main s = MLine47 k
  | EvClose => (st_main s = MExit34 ∧ st_main s' = MReturned
                ∨ ∃ e, st_main s = MExit34Raised e ∧ st_main s' = MRaised e)
               ∧ st_futures s' = st_futures s
  | _ => True
  end.
Proof.
  intros Hstep Htr. destruct s as [d f m im cur cl tot lk pb futs tr].
  unfold step_main in Hstep. simpl in Hstep.
  destruct m; repeat case_match; simplify_eq/=; eauto 10.
Qed.

(** *** Who holds the lock, read from the history *)

Lemma holding_proj i tr : holding i (proj (TJob i) tr) = holding i tr.
Proof.
  induction tr as [|ev tr IH]; [done|].
  rewrite proj_cons. destruct ev; simpl; repeat case_decide;
    simplify_eq/=; rewrite ?decide_True by done; rewrite ?decide_False by done;
    try done.
Qed.

Lemma holding_job_history i p pc :
  holding i (job_history c i p pc) = in_section pc.
Proof.
  unfold job_history.
  destruct pc as [| | | | |fn [?|]| |[?|]]; simpl;
    repeat (case_match; simpl); rewrite ?decide_True by done; done.
Qed.

(** A job holds the lock exactly while it is inside the [with] block. *)
Lemma holding_in_section s i pc :
  Inv s → st_futures s !! i = Some pc →
  holding i (st_trace s) = in_section pc.
Proof.
  intros HI Hi. rewrite <- holding_proj, (inv_job_hist _ _ _ _ HI), Hi.
  apply holding_job_history.
Qed.

Lemma holding_no_job s i :
  Inv s → st_futures s !! i = None → holding i (st_trace s) = false.
Proof.
  intros HI Hi. by rewrite <- holding_proj, (inv_job_hist _ _ _ _ HI), Hi.
Qed.

Lemma elem_of_proj ev t tr : ev ∈ proj t tr → ev ∈ tr.
Proof. unfold proj. by intros [_ ?]%list_elem_of_filter. Qed.

End Invariants.

(** ** The exclusive section *)

Section Exclusion.

Context `{PIL : Imaging Page Frame Content}.
Variable c : Call.
(** The file system on which [tiff2jpeg] is called. *)
Variable d0 : gset string.
Variable f0 : gmap string Content.

Implicit Types s : State (Page:=Page) (Frame:=Frame) (Content:=Content).
Implicit Types pc : JobPc Frame.

Local Abbreviation fpath := (frame_path c).
Local Abbreviation Inv := (Inv c d0 f0).

(** In a state of a run, at most one job holds the lock according to the
    history. *)
Lemma holding_unique s i j :
  Inv s → holding i (st_trace s) = true → holding j (st_trace s) = true →
  i = j.
Proof.
  intros HI Hi Hj.
  destruct (st_futures s !! i) as [pci|] eqn:Ei;
    [|by rewrite (holding_no_job _ _ _ _ _ HI Ei) in Hi].
  destruct (st_futures s !! j) as [pcj|] eqn:Ej;
    [|by rewrite (holding_no_job _ _ _ _ _ HI Ej) in Hj].
  rewrite (holding_in_section _ _ _ _ _ _ HI Ei) in Hi.
  rewrite (holding_in_section _ _ _ _ _ _ HI Ej) in Hj.
  by apply (inv_mutex _ _ _ _ HI i j pci pcj).
Qed.

(** C5. In every run, whenever a job seeks to its page or decodes it, that
    job holds the lock, no other job does, and the page decoded is the page
    of the job; whenever a job writes its file, it has decoded its page and
    released the lock before, and does not hold it. *)
Theorem seek_decode_inside_save_outside sched s post ev pre :
  run c (init d0 f0) sched = Some s →
  st_trace s = post ++ ev :: pre →
  match ev with
  | EvSeek i _ =>
      holding i pre = true ∧ ∀ j, holding j pre = true → j = i
  | EvConvert i k _ =>
      holding i pre = true ∧ (∀ j, holding j pre = true → j = i) ∧ k = i
  | EvSave i fn =>
      holding i pre = false ∧ EvRelease i ∈ pre ∧ EvConvert i i true ∈ pre
  | _ => True
  end.
Proof.
  intros Hrun Htr.
  destruct (run_trace_split _ _ _ _ _ _ _ Hrun Htr)
    as (sched1 & t & sched2 & sa & sb & -> & Ha & Hstep & Hb & Hpre & Hev & _);
    [simpl; lia|].
  pose proof (inv_run _ _ _ _ _ _ (inv_init c d0 f0) Ha) as HI.
  rewrite <- Hpre in Hev |- *. clear Hpre Htr Hrun Hb.
  destruct t as [|i]; simpl in Hstep.
  - destruct (step_main_event _ _ _ _ Hstep Hev) as [Htid _]. by destruct ev.
  - destruct (st_futures sa !! i) as [pc|] eqn:Hi; [|done].
    pose proof (step_job_event _ _ _ _ _ _ Hstep Hev) as Hpc.
    pose proof (holding_in_section _ _ _ _ _ _ HI Hi) as Hhold.
    pose proof (inv_job _ _ _ _ HI _ _ Hi) as Hok.
    pose proof (inv_job_hist _ _ _ _ HI i) as Hhist. rewrite Hi in Hhist.
    destruct ev; try done.
    + destruct Hpc as (-> & fn & ->). split; [done|].
      intros j Hj. by apply (holding_unique sa).
    + destruct Hpc as (-> & -> & fn & ->). split; [done|]. split.
      * intros j Hj. by apply (holding_unique sa).
      * by destruct Hok as (_ & ? & _).
    + destruct Hpc as (-> & frame & ->). split; [done|].
      split; apply (elem_of_proj _ (TJob i)); rewrite Hhist;
        unfold job_history; set_solver.
Qed.

(** *** Steps that are always possible *)

Lemma step_job_at s i pc :
  st_futures s !! i = Some pc → step c s (TJob i) = step_job c s i pc.
Proof. intros Hi. simpl. by rewrite Hi. Qed.

(** Every job step brings the job closer to its end. *)
Lemma step_job_rank s i pc s' :
  step_job c s i pc = Some s' →
  ∃ pc', st_futures s' = <[i:=pc']> (st_futures s) ∧
         job_rank pc' < job_rank pc.
Proof.
  intros Hstep. destruct s as [d f m im cur cl tot lk pb futs tr].
  destruct pc; simpl in Hstep; repeat case_match; simplify_eq/=;
    eexists; (split; [reflexivity|]); simpl; lia.
Qed.

(** Inside the [with] block no statement waits. *)
Lemma step_job_in_section s i pc :
  in_section pc = true → is_Some (step_job c s i pc).
Proof.
  intros Hs. destruct pc; try done; simpl; repeat case_match; eauto.
Qed.

(** The holder of the lock reaches the end of the [with] block by its own
    steps, whatever [seek] and [convert] do, and leaves the other jobs where
    they are. *)
Lemma release_reachable s j pc :
  Inv s → st_futures s !! j = Some pc → in_section pc = true →
  ∃ n s', run c s (replicate n (TJob j)) = Some s' ∧ st_locked s' = false ∧
          ∀ k, k ≠ j → st_futures s' !! k = st_futures s !! k.
Proof.
  remember (job_rank pc) as r eqn:Hr. revert s pc Hr.
  induction (lt_wf r) as [r _ IH]. intros s pc -> HI Hj Hs.
  destruct (step_job_in_section s j pc Hs) as [s1 Hstep].
  pose proof (lookup_lt_Some _ _ _ Hj) as Hlen.
  pose proof Hstep as Hstep'. rewrite <- (step_job_at _ _ _ Hj) in Hstep'.
  pose proof (inv_step _ _ _ _ _ _ HI Hstep') as HI1.
  destruct (step_job_rank _ _ _ _ Hstep) as (pc1 & Ef & Hrank).
  destruct (step_job_lock _ _ _ _ _ Hstep) as (pc1' & Ef' & Hlk).
  assert (pc1' = pc1) as ->.
  { rewrite Ef in Ef'. apply (f_equal (.!! j)) in Ef'.
    rewrite !list_lookup_insert_eq in Ef' by done. congruence. }
  rewrite Hs in Hlk. destruct (in_section pc1) eqn:Hs1; simpl in Hlk.
  - destruct (IH (job_rank pc1) Hrank s1 pc1 eq_refl HI1)
      as (n & s' & Hrun & Hfree & Hothers); [|done|].
    { rewrite Ef. by apply list_lookup_insert_eq. }
    exists (S n), s'. simpl. rewrite Hj, Hstep. split; [done|]. split; [done|].
    intros k Hk. rewrite Hothers, Ef by done. by apply list_lookup_insert_ne.
  - exists 1, s1. simpl. rewrite Hj, Hstep. split; [done|]. split; [done|].
    intros k Hk. rewrite Ef. by apply list_lookup_insert_ne.
Qed.

(** Entering the [with] block: a job waits while the lock is held and
    proceeds once it is free. *)
Lemma acquire_blocked s i fn :
  st_futures s !! i = Some (JLine18 fn) → st_locked s = true →
  step c s (TJob i) = None.
Proof. intros Hi Hl. rewrite (step_job_at _ _ _ Hi). simpl. by rewrite Hl. Qed.

Lemma acquire_free s i fn :
  st_futures s !! i = Some (JLine18 fn) → st_locked s = false →
  ∃ s', step c s (TJob i) = Some s' ∧ st_locked s' = true ∧
        st_futures s' !! i = Some (JLine19 fn).
Proof.
  intros Hi Hl. rewrite (step_job_at _ _ _ Hi). simpl. rewrite Hl.
  eexists. split; [done|]. simpl. split; [done|].
  apply list_lookup_insert_eq. by eapply lookup_lt_Some.
Qed.

(** A waiting job can always get in: the holder, if any, leaves by itself. *)
Lemma acquire_reachable s i fn :
  Inv s → st_futures s !! i = Some (JLine18 fn) →
  ∃ sched' s', run c s sched' = Some s' ∧ st_locked s' = true ∧
               st_futures s' !! i = Some (JLine19 fn).
Proof.
  intros HI Hi. destruct (st_locked s) eqn:Hl.
  - apply (inv_locked _ _ _ _ HI) in Hl as (j & pc & Hj & Hs).
    destruct (release_reachable s j pc HI Hj Hs)
      as (n & s1 & Hrun & Hfree & Hothers).
    assert (i ≠ j) as Hij by (intros ->; rewrite Hi in Hj; by simplify_eq).
    rewrite <- (Hothers i Hij) in Hi.
    destruct (acquire_free s1 i fn Hi Hfree) as (s' & Hstep & Hl' & Hi').
    exists (replicate n (TJob j) ++ [TJob i]), s'.
    rewrite run_app, Hrun. simpl in *. by rewrite Hstep.
  - destruct (acquire_free s i fn Hi Hl) as (s' & Hstep & Hl' & Hi').
    exists [TJob i], s'. simpl in *. by rewrite Hstep.
Qed.

(** *** Jobs that write at the same time *)

Lemma run_cons s t sched :
  run c s (t :: sched) = step c s t ≫= λ s1, run c s1 sched.
Proof. simpl. by destruct (step c s t). Qed.

Lemma step_main_submit s k :
  st_main s = MLine44 k → k < st_total s →
  step c s TMain =
    Some (emit (EvSubmit k)
           (set_main (MLine44 (S k))
             (set_futures (st_futures s ++ [JPending]) s))).
Proof.
  intros Hm Hk. simpl. unfold step_main. rewrite Hm.
  by rewrite decide_True.
Qed.

Lemma step_main_submitted s k :
  st_main s = MLine44 k → ¬ k < st_total s →
  step c s TMain = Some (emit EvSubmitted (set_main (MLine47 0) s)).
Proof.
  intros Hm Hk. simpl. unfold step_main. rewrite Hm.
  by rewrite decide_False.
Qed.

(** The main thread can submit every job before any of them starts. *)
Lemma submit_loop n k s :
  st_main s = MLine44 k → st_total s = k + n →
  st_futures s = replicate k JPending →
  ∃ s', run c s (replicate (S n) TMain) = Some s' ∧
        st_main s' = MLine47 0 ∧
        st_futures s' = replicate (k + n) JPending.
Proof.
  revert k s. induction n as [|n IH]; intros k s Hm Ht Hf.
  - eexists. rewrite replicate_S, run_cons.
    rewrite (step_main_submitted s k) by (done || lia). simpl.
    split; [reflexivity|]. simpl. split; [done|]. by rewrite Hf, Nat.add_0_r.
  - rewrite replicate_S, run_cons.
    rewrite (step_main_submit s k) by (done || lia).
    cbn [mbind option_bind].
    set (s1 := emit _ _).
    destruct (IH (S k) s1) as (s' & Hrun & Hm' & Hf').
    + done.
    + simpl. lia.
    + change (st_futures s1) with (st_futures s ++ [JPending]).
      by rewrite Hf, replicate_S_end.
    + exists s'. split; [exact Hrun|]. split; [done|].
      rewrite Hf'. f_equal. lia.
Qed.

Lemma main_prefix pages :
  container c f0 = Some pages →
  ∃ s, run c (init d0 f0) (replicate (7 + length pages) TMain) = Some s ∧
       st_main s = MLine47 0 ∧
       st_futures s = replicate (length pages) JPending.
Proof.
  intros (Hmk & Hop & Hcnt)%container_Some.
  change (7 + length pages) with (6 + S (length pages)).
  rewrite replicate_add, run_app.
  assert (run c (init d0 f0) (replicate 6 TMain) =
    Some (mkState ({[output_folder c]} ∪ parent_dirs (output_folder c) ∪ d0)
            f0 (MLine44 0) (Some pages) 0
            false (length pages) false 0 []
            [EvPool; EvPbar (length pages); EvNewLock;
             EvNFrames (length pages); EvOpen true; EvMakedirs])) as ->.
  { simpl. unfold step_main. simpl. rewrite Hmk. simpl. rewrite Hop. simpl.
    rewrite Hcnt. done. }
  cbn [mbind option_bind].
  apply (submit_loop (length pages) 0); done.
Qed.

(** A pending job that a worker can take runs, on a readable page and with
    the lock free, up to its last statement in six steps. *)
Lemma job_to_save s i frame :
  Inv s → st_futures s !! i = Some JPending → can_start c s i = true →
  st_locked s = false → page_frame (img_pages s !! i) = Some frame →
  ∃ s', run c s (replicate 6 (TJob i)) = Some s' ∧
        st_futures s' = <[i := JLine21 (fpath i) frame]> (st_futures s) ∧
        st_locked s' = false ∧ st_main s' = st_main s.
Proof.
  intros HI Hi Hcan Hl Hfr.
  destruct (job_live _ _ _ _ _ _ HI Hi eq_refl) as (_ & Hcl & pages & Him).
  pose proof (lookup_lt_Some _ _ _ Hi) as Hlen.
  unfold img_pages, page_frame in Hfr. rewrite Him in Hfr. simpl in Hfr.
  destruct (pages !! i) as [p|] eqn:Hp; [|done].
  destruct (seek_page p) eqn:Hseek; [|done].
  clear HI. destruct s as [d f m im cur cl tot lk pb futs tr].
  simpl in *. subst im cl lk.
  rewrite Hi. simpl. rewrite Hcan. simpl.
  rewrite list_lookup_insert_eq by done. simpl.
  rewrite list_lookup_insert_eq by (by rewrite !length_insert). simpl.
  rewrite list_lookup_insert_eq by (by rewrite !length_insert).
  unfold step_job at 1. unfold img_seek. simpl. rewrite Hp, Hseek. simpl.
  rewrite list_lookup_insert_eq by (by rewrite !length_insert).
  unfold step_job at 1. unfold img_convert. simpl. rewrite Hp, Hfr. simpl.
  rewrite list_lookup_insert_eq by (by rewrite !length_insert). simpl.
  eexists. split; [reflexivity|]. simpl.
  by rewrite !list_insert_insert_eq.
Qed.

Lemma filter_none {A} (P : A → Prop) `{!∀ x, Decision (P x)} (l : list A) :
  Forall (λ x, ¬ P x) l → filter P l = [].
Proof.
  induction 1 as [|x l Hx _ IH]; [done|]. by rewrite filter_cons_False.
Qed.

Lemma filter_length_le {A} (P : A → Prop) `{!∀ x, Decision (P x)}
    (l : list A) (k : nat) :
  (∀ i x, l !! i = Some x → k ≤ i → ¬ P x) → length (filter P l) ≤ k.
Proof.
  intros Hge. rewrite <- (take_drop k l), filter_app, length_app.
  rewrite (filter_none P (drop k l)).
  - pose proof (length_filter P (take k l)) as Hle.
    rewrite length_take in Hle. simpl. lia.
  - apply Forall_lookup. intros i x Hi. rewrite lookup_drop in Hi.
    apply (Hge _ _ Hi). lia.
Qed.

(** With a worker for every page of a readable container, all the jobs can
    stand at their [save] at the same time. *)
Lemma saves_overlap pages :
  container c f0 = Some pages →
  (∀ i, i < length pages → is_Some (page_frame (pages !! i))) →
  length pages ≤ max_workers c →
  ∃ sched s,
    run c (init d0 f0) sched = Some s ∧
    length (st_futures s) = length pages ∧
    ∀ i, i < length pages →
      ∃ frame, st_futures s !! i = Some (JLine21 (fpath i) frame).
Proof.
  intros Hc Hgood Hw.
  assert (∀ k, k ≤ length pages → ∃ sched s,
    run c (init d0 f0) sched = Some s ∧ st_locked s = false ∧
    length (st_futures s) = length pages ∧
    (∀ i, i < k → ∃ frame, st_futures s !! i = Some (JLine21 (fpath i) frame)) ∧
    (∀ i, k ≤ i < length pages → st_futures s !! i = Some JPending)) as H.
  { induction k as [|k IH]; intros Hk.
    - destruct (main_prefix pages Hc) as (s & Hrun & Hm & Hf).
      pose proof (inv_run _ _ _ _ _ _ (inv_init c d0 f0) Hrun) as HI.
      exists (replicate (7 + length pages) TMain), s.
      split; [done|]. split; [|split; [|split]].
      + destruct (st_locked s) eqn:Hl; [|done].
        apply (inv_locked _ _ _ _ HI) in Hl as (j & pc & Hj & Hs).
        rewrite Hf in Hj. apply lookup_replicate in Hj as [-> _]. done.
      + by rewrite Hf, length_replicate.
      + intros; lia.
      + intros i Hi. rewrite Hf. apply lookup_replicate_2. lia.
    - destruct IH as (sched & s & Hrun & Hl & Hlen & Hdone & Hpend); [lia|].
      pose proof (inv_run _ _ _ _ _ _ (inv_init c d0 f0) Hrun) as HI.
      assert (st_futures s !! k = Some JPending) as Hk' by (apply Hpend; lia).
      destruct (job_live _ _ _ _ _ _ HI Hk' eq_refl) as (Hst & _ & _).
      assert (img_pages s = pages) as Hpg.
      { unfold img_pages. destruct (inv_img _ _ _ _ HI) as [-> _]; [lia|].
        by rewrite Hc. }
      destruct (Hgood k) as [frame Hfr]; [lia|].
      destruct (job_to_save s k frame) as (s' & Hrun' & Hf' & Hl' & _);
        try done.
      { unfold can_start. apply andb_true_intro. split.
        - apply forallb_Forall, Forall_lookup. intros i pc Hi.
          apply lookup_take_Some in Hi as [Hi Hik].
          destruct (Hdone i Hik) as [fr Hi']. by simplify_eq.
        - apply Nat.ltb_lt. unfold running.
          apply Nat.le_lt_trans with k; [|lia].
          apply filter_length_le. intros i pc Hi Hik.
          rewrite (Hpend i) in Hi; [by simplify_eq|].
          split; [done|]. rewrite <- Hlen. by eapply lookup_lt_Some. }
      { by rewrite Hpg. }
      exists (sched ++ replicate 6 (TJob k)), s'.
      rewrite run_app, Hrun. split; [done|]. split; [done|].
      rewrite Hf', length_insert. split; [done|]. split.
      + intros i Hi. destruct (decide (i = k)) as [->|Hne].
        * exists frame. apply list_lookup_insert_eq. lia.
        * rewrite list_lookup_insert_ne by done. apply Hdone. lia.
      + intros i Hi. rewrite list_lookup_insert_ne by lia. apply Hpend. lia. }
  destruct (H (length pages)) as (sched & s & Hrun & _ & Hlen & Hdone & _);
    [done|].
  by exists sched, s.
Qed.

(** *** An exception inside the [with] block *)

(** When [seek] raises, the next step of the job leaves the [with] block:
    the lock is free again and the future holds the exception. *)
Lemma seek_fails_release s i fn :
  Inv s → st_futures s !! i = Some (JLine19 fn) →
  page_seekable (img_pages s !! i) = false →
  ∃ s', run c s [TJob i; TJob i] = Some s' ∧ st_locked s' = false ∧
        st_futures s' !! i = Some (JFinished (Some PageReadError)).
Proof.
  intros HI Hi Hbad.
  destruct (job_live _ _ _ _ _ _ HI Hi eq_refl) as (_ & Hcl & pages & Him).
  pose proof (lookup_lt_Some _ _ _ Hi) as Hlen.
  unfold img_pages, page_seekable in Hbad. rewrite Him in Hbad. simpl in Hbad.
  clear HI. destruct s as [d f m im cur cl tot lk pb futs tr].
  simpl in *. subst im cl. rewrite Hi. simpl. unfold img_seek. simpl.
  destruct (pages !! i) as [p|] eqn:Hp; [rewrite Hbad|]; simpl;
    rewrite list_lookup_insert_eq by done; simpl;
    (eexists; split; [reflexivity|]; simpl; split; [done|]);
    apply list_lookup_insert_eq; by rewrite length_insert.
Qed.

(** The same when [convert] raises. *)
Lemma convert_fails_release s i fn :
  Inv s → st_futures s !! i = Some (JLine20 fn) →
  page_frame (img_pages s !! i) = None →
  ∃ s', run c s [TJob i; TJob i] = Some s' ∧ st_locked s' = false ∧
        st_futures s' !! i = Some (JFinished (Some PageReadError)).
Proof.
  intros HI Hi Hbad.
  destruct (job_live _ _ _ _ _ _ HI Hi eq_refl) as (_ & Hcl & pages & Him).
  destruct (inv_job _ _ _ _ HI _ _ Hi) as (_ & Hcur & Hseek).
  pose proof (lookup_lt_Some _ _ _ Hi) as Hlen.
  unfold img_pages, page_frame, page_seekable in Hbad, Hseek.
  rewrite Him in Hbad, Hseek. simpl in Hbad, Hseek.
  clear HI. destruct s as [d f m im cur cl tot lk pb futs tr].
  simpl in *. subst im cl cur. rewrite Hi. simpl. unfold img_convert. simpl.
  destruct (pages !! i) as [p|] eqn:Hp; [|done]. rewrite Hseek in Hbad.
  rewrite Hbad. simpl. rewrite list_lookup_insert_eq by done. simpl.
  eexists. split; [reflexivity|]. simpl. split; [done|].
  apply list_lookup_insert_eq. by rewrite length_insert.
Qed.

(** C9. In every state of a run: a job whose [seek] or [convert] raises
    inside the [with] block releases the lock with its next step and ends
    with the exception in its future; a finished job never holds the lock;
    whenever the lock is held, its holder is a job inside the block that can
    advance; and every job that waits for the lock can still enter. *)
Theorem lock_released_on_failure sched s :
  run c (init d0 f0) sched = Some s →
  (∀ i fn, st_futures s !! i = Some (JLine19 fn) →
     page_seekable (img_pages s !! i) = false →
     ∃ s', run c s [TJob i; TJob i] = Some s' ∧ st_locked s' = false ∧
           st_futures s' !! i = Some (JFinished (Some PageReadError))) ∧
  (∀ i fn, st_futures s !! i = Some (JLine20 fn) →
     page_frame (img_pages s !! i) = None →
     ∃ s', run c s [TJob i; TJob i] = Some s' ∧ st_locked s' = false ∧
           st_futures s' !! i = Some (JFinished (Some PageReadError))) ∧
  (∀ i e, st_futures s !! i = Some (JFinished e) →
     holding i (st_trace s) = false) ∧
  (st_locked s = true →
     ∃ j pc, st_futures s !! j = Some pc ∧ in_section pc = true ∧
             is_Some (step c s (TJob j))) ∧
  (∀ k fn, st_futures s !! k = Some (JLine18 fn) →
     ∃ sched' s', run c s sched' = Some s' ∧ st_locked s' = true ∧
                  st_futures s' !! k = Some (JLine19 fn)).
Proof.
  intros Hrun.
  pose proof (inv_run _ _ _ _ _ _ (inv_init c d0 f0) Hrun) as HI.
  split; [|split; [|split; [|split]]].
  - intros i fn. by apply seek_fails_release.
  - intros i fn. by apply convert_fails_release.
  - intros i e Hi. by rewrite (holding_in_section _ _ _ _ _ _ HI Hi).
  - intros (j & pc & Hj & Hs)%(inv_locked _ _ _ _ HI).
    exists j, pc. split; [done|]. split; [done|].
    rewrite (step_job_at _ _ _ Hj). by apply step_job_in_section.
  - intros k fn. by apply acquire_reachable.
Qed.

(** C1. In every state of a run at most one job is inside the [with] block,
    the lock is held exactly when a job is inside, and a job that reaches the
    block while the lock is held cannot advance, but gets in once the holder
    has left.  Outside the block nothing is exclusive: on a readable
    container with a worker per page, all the jobs can stand at their [save]
    at the same time. *)
Theorem exclusive_section :
  (∀ sched s, run c (init d0 f0) sched = Some s →
     (∀ i j pci pcj,
        st_futures s !! i = Some pci → st_futures s !! j = Some pcj →
        in_section pci = true → in_section pcj = true → i = j) ∧
     (st_locked s = true ↔
        ∃ i pc, st_futures s !! i = Some pc ∧ in_section pc = true) ∧
     (∀ i fn, st_futures s !! i = Some (JLine18 fn) →
        (st_locked s = true → step c s (TJob i) = None) ∧
        ∃ sched' s', run c s sched' = Some s' ∧
                     st_futures s' !! i = Some (JLine19 fn))) ∧
  (∀ pages,
     container c f0 = Some pages →
     (∀ i, i < length pages → is_Some (page_frame (pages !! i))) →
     length pages ≤ max_workers c →
     ∃ sched s,
       run c (init d0 f0) sched = Some s ∧
       length (st_futures s) = length pages ∧
       ∀ i, i < length pages →
         ∃ frame, st_futures s !! i = Some (JLine21 (fpath i) frame)).
Proof.
  split; [|apply saves_overlap].
  intros sched s Hrun.
  pose proof (inv_run _ _ _ _ _ _ (inv_init c d0 f0) Hrun) as HI.
  split; [apply HI|]. split; [apply HI|].
  intros i fn Hi. split; [by apply (acquire_blocked s i fn)|].
  destruct (acquire_reachable s i fn HI Hi) as (sched' & s' & ? & _ & ?).
  eauto.
Qed.

End Exclusion.

(** ** The image, the jobs and the progress counter over a call *)

Section Lifecycle.

Context `{PIL : Imaging Page Frame Content}.
Variable c : Call.
(** The file system on which [tiff2jpeg] is called. *)
Variable d0 : gset string.
Variable f0 : gmap string Content.

Implicit Types s : State (Page:=Page) (Frame:=Frame) (Content:=Content).
Implicit Types pc : JobPc Frame.

Local Abbreviation fpath := (frame_path c).
Local Abbreviation Inv := (Inv c d0 f0).

(** *** Counting events of the main thread *)

Lemma filter_proj_main (P : Event → Prop) `{!∀ ev, Decision (P ev)} tr :
  (∀ ev, P ev → event_tid ev = TMain) →
  filter P (proj TMain tr) = filter P tr.
Proof.
  intros HP. induction tr as [|ev tr IH]; [done|].
  rewrite proj_cons. case_decide as Hev.
  - rewrite !filter_cons. by rewrite IH.
  - rewrite IH, (filter_cons_False _ ev); [done|]. intros ?%HP. done.
Qed.

Lemma filter_reverse_fmap_nil {A} (P : Event → Prop)
    `{!∀ ev, Decision (P ev)} (f : A → Event) (l : list A) :
  (∀ x, ¬ P (f x)) → filter P (reverse (f <$> l)) = [].
Proof.
  intros HP. apply filter_none, Forall_forall.
  intros ev [x [-> _]]%elem_of_reverse%list_elem_of_fmap. apply HP.
Qed.

Lemma open_count n m :
  length (filter (λ ev, is_open_ev ev = true) (main_history n m))
  = if opened_at m then 1 else 0.
Proof.
  destruct m as [| | | | | | | | | | | | |[]]; unfold main_history;
    repeat first [ rewrite filter_app | rewrite filter_cons
                 | rewrite filter_reverse_fmap_nil by done ];
    reflexivity.
Qed.

Lemma close_count n m :
  length (filter (λ ev, is_close_ev ev = true) (main_history n m))
  = if closed_at m then 1 else 0.
Proof.
  destruct m as [| | | | | | | | | | | | |[]]; unfold main_history;
    repeat first [ rewrite filter_app | rewrite filter_cons
                 | rewrite filter_reverse_fmap_nil by done ];
    reflexivity.
Qed.

Lemma elem_of_main_history_close n m :
  EvClose ∈ main_history n m → closed_at m = true.
Proof.
  destruct m as [| | | | | | | | | | | | |[]]; unfold main_history; try done;
    rewrite ?elem_of_cons, ?elem_of_app, ?elem_of_cons, ?elem_of_app,
      ?elem_of_reverse, ?list_elem_of_fmap, ?elem_of_cons;
    set_solver.
Qed.

(** Once the image is open, the history of the main thread says so. *)
Lemma elem_of_main_history_opened n m :
  3 ≤ stage m →
  EvOpen true ∈ main_history n m ∧ EvNFrames n ∈ main_history n m.
Proof.
  destruct m; simpl; try lia; intros _; unfold main_history;
    rewrite ?elem_of_cons, ?elem_of_app, ?elem_of_cons, ?elem_of_app,
      ?elem_of_cons; set_solver.
Qed.

Lemma elem_of_main_history_submit n m i :
  7 ≤ stage m → i < n → EvSubmit i ∈ main_history n m.
Proof.
  intros Hm Hi.
  assert (EvSubmit i ∈ reverse (EvSubmit <$> seq 0 n)) as Hin.
  { rewrite elem_of_reverse, list_elem_of_fmap. exists i.
    split; [done|]. apply elem_of_seq. lia. }
  destruct m; simpl in Hm; try lia; unfold main_history;
    rewrite ?elem_of_cons, ?elem_of_app, ?elem_of_cons, ?elem_of_app;
    tauto.
Qed.

(** *** The end of a call *)

(** After the return nothing moves any more. *)
Lemma returned_stuck s t :
  Inv s → st_main s = MReturned → step c s t = None.
Proof.
  intros HI Hm. destruct t as [|i]; simpl.
  - unfold step_main. by rewrite Hm.
  - destruct (st_futures s !! i) as [pc|] eqn:Hi; [|done].
    assert (is_finished pc = true) as Hfin.
    { eapply (Forall_lookup_1 _ _ _ _ (inv_joined _ _ _ _ HI _) Hi). }
    by destruct pc.
  Unshelve. rewrite Hm. simpl. lia.
Qed.

Lemma raised_stuck s t e :
  Inv s → st_main s = MRaised e → step c s t = None.
Proof.
  intros HI Hm. destruct t as [|i]; simpl.
  - unfold step_main. by rewrite Hm.
  - destruct (inv_early _ _ _ _ HI) as [-> _]; [rewrite Hm; simpl; lia|].
    by rewrite lookup_nil.
Qed.

Lemma finished_stuck s sched s' :
  Inv s → finished s = true → run c s sched = Some s' → sched = [] ∧ s' = s.
Proof.
  intros HI Hfin Hrun. destruct sched as [|t sched]; simpl in Hrun.
  - by simplify_eq.
  - unfold finished in Hfin.
    destruct (st_main s) eqn:Hm; try done.
    + by rewrite (returned_stuck s t HI Hm) in Hrun.
    + by rewrite (raised_stuck s t e HI Hm) in Hrun.
Qed.

(** C6. In every run the image is opened at most once and closed at most
    once, and exactly once each when the call returns; every job is submitted
    after the image was opened and its number of frames read; the close is
    the last step of the run, taken when every submitted job has finished;
    and every [seek] and [convert] of a job falls between the open and the
    close. *)
Theorem image_lifecycle sched s :
  run c (init d0 f0) sched = Some s →
  length (filter (λ ev, is_open_ev ev = true) (st_trace s)) ≤ 1 ∧
  length (filter (λ ev, is_close_ev ev = true) (st_trace s)) ≤ 1 ∧
  (result s = Some RNone →
     length (filter (λ ev, is_open_ev ev = true) (st_trace s)) = 1 ∧
     length (filter (λ ev, is_close_ev ev = true) (st_trace s)) = 1) ∧
  (∀ post i pre, st_trace s = post ++ EvSubmit i :: pre →
     ∃ pages, container c f0 = Some pages ∧ i < length pages ∧
              EvOpen true ∈ pre ∧ EvNFrames (length pages) ∈ pre) ∧
  (∀ post pre, st_trace s = post ++ EvClose :: pre →
     post = [] ∧ length (st_futures s) = st_total s ∧
     Forall (λ pc, is_finished pc = true) (st_futures s) ∧
     ∀ i, i < st_total s → EvSubmit i ∈ pre) ∧
  (∀ post ev pre, st_trace s = post ++ ev :: pre → is_image_ev ev = true →
     EvOpen true ∈ pre ∧ EvClose ∉ pre).
Proof.
  intros Hrun.
  pose proof (inv_run _ _ _ _ _ _ (inv_init c d0 f0) Hrun) as HI.
  assert (∀ ev, is_open_ev ev = true → event_tid ev = TMain) as Hopen
    by (by intros []).
  assert (∀ ev, is_close_ev ev = true → event_tid ev = TMain) as Hclose
    by (by intros []).
  rewrite <- (filter_proj_main _ _ Hopen), <- (filter_proj_main _ _ Hclose).
  rewrite (inv_main_hist _ _ _ _ HI), open_count, close_count.
  split; [destruct (opened_at _); lia|].
  split; [destruct (closed_at _); lia|].
  split; [|split; [|split]].
  - unfold result. by destruct (st_main s).
  - intros post i pre Htr.
    destruct (run_trace_split _ _ _ _ _ _ _ Hrun Htr)
      as (sched1 & t & sched2 & sa & sb & -> & Ha & Hstep & Hb & <- & Hev & _);
      [simpl; lia|].
    pose proof (inv_run _ _ _ _ _ _ (inv_init c d0 f0) Ha) as HIa.
    destruct t as [|j]; simpl in Hstep.
    2: { destruct (st_futures sa !! j) as [pc|]; [|done].
         by destruct (step_job_event _ _ _ _ _ _ Hstep Hev). }
    destruct (step_main_event _ _ _ _ Hstep Hev) as [_ Hm].
    destruct (inv_img _ _ _ _ HIa) as [Him [pages Hp]]; [rewrite Hm; simpl; lia|].
    exists pages. split; [congruence|].
    pose proof (inv_total _ _ _ _ HIa) as Htot. pose proof (inv_nfut _ _ _ _ HIa) as Hn.
    rewrite Hm in Htot, Hn. simpl in Htot. unfold img_pages in Htot.
    rewrite Hp in Htot. simpl in Htot. specialize (Htot ltac:(lia)).
    assert (i < st_total sa) as Hlt.
    { unfold step_main in Hstep. rewrite Hm in Hstep.
      case_decide; [done|]. by simplify_eq/=. }
    split; [lia|].
    destruct (elem_of_main_history_opened (st_total sa) (st_main sa))
      as [Ho Hf]; [rewrite Hm; simpl; lia|].
    rewrite <- (inv_main_hist _ _ _ _ HIa), Htot in *.
    split; by eapply elem_of_proj.
  - intros post pre Htr.
    destruct (run_trace_split _ _ _ _ _ _ _ Hrun Htr)
      as (sched1 & t & sched2 & sa & sb & -> & Ha & Hstep & Hb & <- & Hev & Hl);
      [simpl; lia|].
    pose proof (inv_run _ _ _ _ _ _ (inv_init c d0 f0) Ha) as HIa.
    destruct t as [|j]; simpl in Hstep.
    2: { destruct (st_futures sa !! j) as [pc|]; [|done].
         by destruct (step_job_event _ _ _ _ _ _ Hstep Hev). }
    pose proof (inv_step c d0 f0 sa TMain sb HIa Hstep) as HIb.
    destruct (step_main_event _ _ _ _ Hstep Hev)
      as (_ & [[Hm Hm']|(e & Hm & Hm')] & Hf).
    2: { destruct (finished_stuck sb sched2 s HIb) as [-> ->]; [|done|].
         { unfold finished. by rewrite Hm'. }
         destruct post; [|done]. split; [done|].
         destruct (inv_early _ _ _ _ HIb) as [-> _]; [rewrite Hm'; simpl; lia|].
         rewrite (inv_total0 _ _ _ _ HIb) by (rewrite Hm'; simpl; lia).
         split; [done|]. split; [by apply Forall_nil|]. intros i Hi. lia. }
    destruct (finished_stuck sb sched2 s HIb) as [-> ->]; [|done|].
    { unfold finished. by rewrite Hm'. }
    destruct post; [|done]. split; [done|].
    pose proof (inv_nfut _ _ _ _ HIb) as Hn. rewrite Hm' in Hn.
    split; [apply Hn; simpl; lia|]. split.
    + apply (inv_joined _ _ _ _ HIb). rewrite Hm'. simpl. lia.
    + intros i Hi. apply (elem_of_proj _ TMain).
      rewrite (inv_main_hist _ _ _ _ HIa), Hm.
      assert (st_total sa = st_total sb) as ->.
      { unfold step_main in Hstep. rewrite Hm in Hstep. by simplify_eq. }
      apply elem_of_main_history_submit; [simpl; lia|done].
  - intros post ev pre Htr Hev'.
    destruct (run_trace_split _ _ _ _ _ _ _ Hrun Htr)
      as (sched1 & t & sched2 & sa & sb & -> & Ha & Hstep & Hb & <- & Hev & Hl);
      [simpl; lia|].
    pose proof (inv_run _ _ _ _ _ _ (inv_init c d0 f0) Ha) as HIa.
    destruct t as [|j]; simpl in Hstep.
    { destruct (step_main_event _ _ _ _ Hstep Hev) as [Htid _].
      by destruct ev. }
    destruct (st_futures sa !! j) as [pc|] eqn:Hj; [|done].
    assert (is_finished pc = false) as Hpc by (by destruct pc).
    destruct (job_live _ _ _ _ _ _ HIa Hj Hpc) as (Hst & _ & _).
    split.
    + apply (elem_of_proj _ TMain). rewrite (inv_main_hist _ _ _ _ HIa).
      apply elem_of_main_history_opened. lia.
    + intros Hin. assert (EvClose ∈ proj TMain (st_trace sa)) as Hin'.
      { unfold proj. by apply list_elem_of_filter. }
      rewrite (inv_main_hist _ _ _ _ HIa) in Hin'.
      apply elem_of_main_history_close in Hin'.
      destruct (st_main sa) as [| | | | | | | | | | | | |[]];
        simpl in *; try done; lia.
Qed.

(** *** A container that cannot be opened *)





(** *** The progress counter *)

Lemma step_main_update s k :
  st_main s = MLine47 k → k < length (st_futures s) →
  step c s TMain =
    Some (emit (EvUpdate (S (st_pbar s)))
           (set_main (MLine47 (S k)) (set_pbar (S (st_pbar s)) s))).
Proof.
  intros Hm Hk. simpl. unfold step_main. rewrite Hm.
  by rewrite decide_True.
Qed.

(** The loop over the futures runs to its end whatever the jobs do. *)
Lemma update_loop n k s :
  st_main s = MLine47 k → length (st_futures s) = k + n →
  ∃ s', run c s (replicate n TMain) = Some s' ∧
        st_pbar s' = st_pbar s + n ∧ st_futures s' = st_futures s.
Proof.
  revert k s. induction n as [|n IH]; intros k s Hm Hlen.
  - exists s. split; [done|]. split; [lia|done].
  - rewrite replicate_S, run_cons.
    rewrite (step_main_update s k) by (done || lia).
    cbn [mbind option_bind].
    set (s1 := emit _ _).
    destruct (IH (S k) s1) as (s' & Hrun & Hp & Hf).
    + done.
    + subst s1. simpl. lia.
    + exists s'. split; [exact Hrun|]. subst s1. simpl in *.
      split; [lia|done].
Qed.

Lemma run_invariant (P : State → Prop) s0 sched s :
  P s0 → (∀ s t s', P s → step c s t = Some s' → P s') →
  run c s0 sched = Some s → P s.
Proof.
  intros H0 Hstep. revert s0 H0.
  induction sched as [|t sched IH]; intros s0 H0 Hrun; simpl in Hrun.
  - by simplify_eq.
  - destruct (step c s0 t) as [s1|] eqn:Hs; [|done]. eauto.
Qed.

(** Before the progress bar is created the counter is zero. *)
Lemma pbar_zero_before sched s :
  run c (init d0 f0) sched = Some s →
  stage (st_main s) ≤ 4 → st_pbar s = 0.
Proof.
  apply (run_invariant (λ s, stage (st_main s) ≤ 4 → st_pbar s = 0)); [done|].
  clear. intros s t s' Hp Hstep. destruct t as [|i]; simpl in Hstep.
  - destruct s as [d f m im cur cl tot lk pb futs tr].
    unfold step_main in Hstep. simpl in *.
    destruct m; repeat case_match; simplify_eq/=; lia || (intros; apply Hp; lia).
  - destruct (st_futures s !! i) as [pc|]; [|done].
    destruct (step_job_frame _ _ _ _ _ Hstep) as (-> &_&_&_&_& -> &_).
    done.
Qed.

(** The counter never decreases; it grows by one, and only in the loop of
    lines 47-48; it stays within the number of frames, and has reached it
    when the call returns. *)
Lemma progress_counter sched s :
  run c (init d0 f0) sched = Some s →
  (∀ t s', step c s t = Some s' →
     st_pbar s ≤ st_pbar s' ≤ S (st_pbar s) ∧
     (st_pbar s' ≠ st_pbar s →
        t = TMain ∧ ∃ k, st_main s = MLine47 k ∧ st_pbar s' = S k)) ∧
  (4 ≤ stage (st_main s) → st_pbar s ≤ st_total s) ∧
  (result s = Some RNone →
     st_pbar s = st_total s ∧ st_total s = length (st_futures s)).
Proof.
  intros Hrun.
  pose proof (inv_run _ _ _ _ _ _ (inv_init c d0 f0) Hrun) as HI.
  split; [|split].
  - intros t s' Hstep. destruct t as [|i]; simpl in Hstep.
    + pose proof (inv_pbar _ _ _ _ HI) as Hp.
      pose proof (pbar_zero_before _ _ Hrun) as Hz.
      destruct s as [d f m im cur cl tot lk pb futs tr].
      unfold step_main in Hstep. simpl in *.
      destruct m; repeat case_match; simplify_eq/=;
        (split; [lia|]); intros Hne; try done; try lia.
      all: split; [done|]; eexists; split; [done|]; lia.
    + destruct (st_futures s !! i) as [pc|]; [|done].
      destruct (step_job_frame _ _ _ _ _ Hstep) as (_&_&_&_&_& -> &_).
      split; [lia|done].
  - intros Hst. pose proof (inv_pbar _ _ _ _ HI) as Hp.
    pose proof (pbar_zero_before _ _ Hrun) as Hz.
    destruct (st_main s); simpl in *; lia.
  - unfold result. intros Hr.
    pose proof (inv_pbar _ _ _ _ HI) as Hp.
    pose proof (inv_nfut _ _ _ _ HI) as Hn.
    destruct (st_main s); simpl in *; try done.
    split; [apply Hp; lia|symmetry; apply Hn; lia].
Qed.

(** C2 (the part that fails).  On every container the main thread can bring
    the counter to the number of frames while no job has even started: the
    loop of lines 47-48 does not wait for the futures. *)
Theorem progress_counter_runs_ahead pages :
  container c f0 = Some pages →
  ∃ sched s,
    run c (init d0 f0) sched = Some s ∧
    st_pbar s = length pages ∧
    st_futures s = replicate (length pages) JPending ∧
    finished_jobs s = 0.
Proof.
  intros Hc. destruct (main_prefix c d0 f0 pages Hc) as (s & Hrun & Hm & Hf).
  pose proof (inv_run _ _ _ _ _ _ (inv_init c d0 f0) Hrun) as HI.
  destruct (update_loop (length pages) 0 s) as (s' & Hrun' & Hp & Hf');
    [done|by rewrite Hf, length_replicate|].
  exists (replicate (7 + length pages) TMain ++ replicate (length pages) TMain), s'.
  rewrite run_app, Hrun. split; [done|].
  pose proof (inv_pbar _ _ _ _ HI) as Hp0. rewrite Hm in Hp0.
  split; [lia|]. split; [congruence|].
  unfold finished_jobs. rewrite Hf', Hf.
  rewrite filter_none; [done|]. by apply Forall_replicate.
Qed.

End Lifecycle.

(** ** The outcome of a call *)

Section Outcome.

Context `{PIL : Imaging Page Frame Content}.
Variable c : Call.
(** The file system on which [tiff2jpeg] is called. *)
Variable d0 : gset string.
Variable f0 : gmap string Content.

Implicit Types s : State (Page:=Page) (Frame:=Frame) (Content:=Content).
Implicit Types pc : JobPc Frame.

Local Abbreviation fpath := (frame_path c).
Local Abbreviation Inv := (Inv c d0 f0).

(** *** Every run can be completed *)

Lemma sum_rank_snoc (l : list (JobPc Frame)) pc :
  sum_list (job_rank <$> (l ++ [pc])) = sum_list (job_rank <$> l) + job_rank pc.
Proof. rewrite fmap_app, sum_list_with_app. simpl. unfold id. lia. Qed.

Lemma sum_rank_insert (l : list (JobPc Frame)) i pc pc' :
  l !! i = Some pc → job_rank pc' < job_rank pc →
  sum_list (job_rank <$> <[i:=pc']> l) < sum_list (job_rank <$> l).
Proof.
  revert i. induction l as [|x l IH]; intros [|i] Hi Hlt; simplify_eq/=.
  - by apply Nat.add_lt_mono_r.
  - by apply Nat.add_lt_mono_l, (IH i).
Qed.

(** Every step uses up some of the work that is left. *)
Lemma step_work_left s t s' :
  Inv s → step c s t = Some s' → work_left c s' < work_left c s.
Proof.
  intros HI Hstep. destruct t as [|i]; simpl in Hstep.
  - pose proof (inv_nfut _ _ _ _ HI) as Hn.
    pose proof (inv_pbar _ _ _ _ HI) as Hp.
    destruct s as [d f m im cur cl tot lk pb futs tr].
    unfold step_main in Hstep. unfold work_left, main_rank, container.
    simpl in *.
    destruct m; repeat case_match; simplify_eq/=;
      rewrite ?sum_rank_snoc; simpl; try lia.
    + unfold opened.
      match goal with H : makedirs_ok _ _ = true |- _ => rewrite H end. lia.
    + destruct im as [l|]; simpl in *; [|lia]. unfold countable.
      match goal with H : count_frames _ = true |- _ => rewrite H end.
      simpl. lia.
  - destruct (st_futures s !! i) as [pc|] eqn:Hi; [|done].
    assert (is_finished pc = false) as Hpc by (by destruct pc).
    destruct (job_live _ _ _ _ _ _ HI Hi Hpc) as (Hst & _ & _).
    destruct (step_job_frame _ _ _ _ _ Hstep) as (Em &_&_& Et &_&_&_).
    destruct (step_job_rank _ _ _ _ _ Hstep) as (pc' & Ef & Hlt).
    unfold work_left. rewrite Ef.
    assert (main_rank c s' = main_rank c s) as ->.
    { unfold main_rank. rewrite Em, Et.
      destruct (st_main s); simpl in Hst; (done || lia). }
    by apply Nat.add_lt_mono_l, (sum_rank_insert _ _ pc).
Qed.

Lemma running_step_enabled s i pc :
  is_running pc = true → st_locked s = false →
  is_Some (step_job c s i pc).
Proof.
  intros Hr Hl. destruct pc; try done; simpl; rewrite ?Hl;
    repeat case_match; eauto.
Qed.

(** Unless the call is over, some thread can advance: there is no deadlock. *)
Lemma deadlock_free s :
  Inv s → 0 < max_workers c → finished s = false →
  ∃ t s', step c s t = Some s'.
Proof.
  intros HI Hw Hfin.
  unfold finished in Hfin.
  destruct (st_main s) eqn:Hm; try done;
    try (exists TMain; simpl; unfold step_main; rewrite Hm;
         repeat case_match; eauto; fail).
  destruct (forallb is_finished (st_futures s)) eqn:Hall.
  { exists TMain. simpl. unfold step_main. rewrite Hm, Hall. eauto. }
  destruct (st_locked s) eqn:Hl.
  { apply (inv_locked _ _ _ _ HI) in Hl as (j & pc & Hj & Hs).
    destruct (step_job_in_section c s j pc Hs) as [s' Hs'].
    exists (TJob j), s'. by rewrite (step_job_at c _ _ _ Hj). }
  destruct (list_find (λ pc, is_running pc = true) (st_futures s))
    as [[i pc]|] eqn:Hrun.
  { apply list_find_Some in Hrun as (Hi & Hr & _).
    destruct (running_step_enabled s i pc Hr Hl) as [s' Hs'].
    exists (TJob i), s'. by rewrite (step_job_at c _ _ _ Hi). }
  apply list_find_None in Hrun.
  destruct (list_find (λ pc, is_pending pc = true) (st_futures s))
    as [[i pc]|] eqn:Hpend.
  - apply list_find_Some in Hpend as (Hi & Hp & Hfirst).
    exists (TJob i). rewrite (step_job_at c _ _ _ Hi).
    destruct pc; try done. simpl.
    assert (can_start c s i = true) as ->; [|eauto].
    unfold can_start. apply andb_true_intro. split.
    + apply forallb_Forall, Forall_lookup. intros j pcj Hj.
      apply lookup_take_Some in Hj as [Hj Hji].
      specialize (Hfirst j pcj Hj Hji). by destruct (is_pending pcj).
    + apply Nat.ltb_lt. unfold running. by rewrite filter_none.
  - apply list_find_None in Hpend. exfalso.
    assert (forallb is_finished (st_futures s) = true); [|congruence].
    apply forallb_Forall, Forall_lookup. intros j pcj Hj.
    pose proof (Forall_lookup_1 _ _ _ _ Hrun Hj) as H1.
    pose proof (Forall_lookup_1 _ _ _ _ Hpend Hj) as H2.
    simpl in *. unfold is_running in H1.
    destruct (is_pending pcj), (is_finished pcj); done.
Qed.

(** From every state of a run the call can be brought to its end. *)
Lemma run_completes s :
  Inv s → 0 < max_workers c →
  ∃ sched s', run c s sched = Some s' ∧ finished s' = true.
Proof.
  intros HI Hw. remember (work_left c s) as n eqn:Hn. revert s HI Hn.
  induction (lt_wf n) as [n _ IH]. intros s HI ->.
  destruct (finished s) eqn:Hfin.
  { by exists [], s. }
  destruct (deadlock_free s HI Hw Hfin) as (t & s1 & Hstep).
  destruct (IH (work_left c s1) (step_work_left _ _ _ HI Hstep) s1)
    as (sched & s' & Hrun & Hf); [by eapply inv_step|done|].
  exists (t :: sched), s'. simpl. rewrite Hstep. done.
Qed.

(** *** The files after a call *)

Lemma write_frame_lookup pages i (f : gmap string Content) p :
  write_frame c pages i f !! p =
    if decide (p = fpath i) then file_after c i (pages !! i) (f !! p)
    else f !! p.
Proof.
  unfold write_frame, file_after.
  destruct (page_frame (pages !! i)) as [frame|]; [|by case_decide].
  destruct (save_ok (fpath i) frame); case_decide as Hp; subst.
  - by rewrite lookup_insert_eq.
  - by rewrite lookup_insert_ne.
  - by rewrite lookup_partial_alter_eq.
  - by rewrite lookup_partial_alter_ne.
Qed.

Lemma write_frames_lookup_other pages (l : list nat)
    (f : gmap string Content) p :
  (∀ i, i ∈ l → p ≠ fpath i) →
  foldr (write_frame c pages) f l !! p = f !! p.
Proof.
  induction l as [|j l IH]; intros Hp; [done|]. simpl.
  rewrite write_frame_lookup, decide_False by (apply Hp; by left).
  apply IH. intros i Hi. apply Hp. by right.
Qed.

Lemma write_frames_lookup pages (l : list nat) (f : gmap string Content) i :
  NoDup l → i ∈ l →
  foldr (write_frame c pages) f l !! fpath i
  = file_after c i (pages !! i) (f !! fpath i).
Proof.
  induction l as [|j l IH]; intros Hnd Hi; [by apply elem_of_nil in Hi|].
  apply NoDup_cons in Hnd as [Hj Hnd]. simpl. rewrite write_frame_lookup.
  case_decide as Hp.
  - apply frame_path_inj in Hp as <-.
    rewrite write_frames_lookup_other; [done|].
    by intros k Hk ->%frame_path_inj.
  - apply elem_of_cons in Hi as [->|Hi]; [done|]. by apply IH.
Qed.

(** The files after a call, path by path. *)
Lemma expected_files_lookup pages (f : gmap string Content) i :
  i < length pages →
  expected_files c f pages !! fpath i
  = file_after c i (pages !! i) (f !! fpath i).
Proof.
  intros Hi. apply write_frames_lookup; [apply NoDup_seq|].
  apply elem_of_seq. lia.
Qed.

Lemma expected_files_lookup_other pages (f : gmap string Content) p :
  (∀ i, i < length pages → p ≠ fpath i) →
  expected_files c f pages !! p = f !! p.
Proof.
  intros Hp. apply write_frames_lookup_other.
  intros i Hi%elem_of_seq. apply Hp. lia.
Qed.

(** A second round of saves changes nothing, when every save that raises
    leaves the same thing at its path once more. *)
Lemma expected_files_again pages (f : gmap string Content) :
  (∀ i frame, i < length pages → page_frame (pages !! i) = Some frame →
     save_ok (fpath i) frame = false →
     save_junk (fpath i) frame (save_junk (fpath i) frame (f !! fpath i))
     = save_junk (fpath i) frame (f !! fpath i)) →
  expected_files c (expected_files c f pages) pages
  = expected_files c f pages.
Proof.
  intros Hst. apply map_eq. intros p.
  destruct (decide (p ∈ fpath <$> seq 0 (length pages))) as [Hin|Hout].
  - apply list_elem_of_fmap in Hin as (i & -> & Hi%elem_of_seq).
    rewrite !expected_files_lookup by lia. unfold file_after.
    destruct (page_frame (pages !! i)) as [frame|] eqn:Hfr; [|done].
    destruct (save_ok (fpath i) frame) eqn:Hok; [done|].
    apply Hst; [lia|done..].
  - assert (∀ i, i < length pages → p ≠ fpath i) as Hp.
    { intros i Hi ->. apply Hout, list_elem_of_fmap. exists i.
      split; [done|]. apply elem_of_seq. lia. }
    by rewrite !expected_files_lookup_other.
Qed.

(** When the call has returned, every job has finished; its future holds the
    exception of [seek], [convert] or [save], if one of them raised. *)
Lemma returned_jobs s pages :
  Inv s → st_main s = MReturned → container c f0 = Some pages →
  length (st_futures s) = length pages ∧
  ∀ i, i < length pages →
    st_futures s !! i = Some (JFinished (outcome c i (pages !! i))).
Proof.
  intros HI Hm Hc.
  destruct (inv_img _ _ _ _ HI) as [Him _]; [rewrite Hm; simpl; lia|].
  assert (img_pages s = pages) as Hpg.
  { unfold img_pages. by rewrite Him, Hc. }
  pose proof (inv_nfut _ _ _ _ HI) as Hn. rewrite Hm in Hn.
  rewrite (inv_total _ _ _ _ HI), Hpg in Hn by (rewrite Hm; simpl; lia).
  specialize (Hn ltac:(simpl; lia)). split; [done|].
  intros i Hi.
  destruct (lookup_lt_is_Some_2 (st_futures s) i) as [pc Hpc]; [lia|].
  pose proof (inv_joined _ _ _ _ HI) as Hj. rewrite Hm in Hj.
  pose proof (Forall_lookup_1 _ _ _ _ (Hj ltac:(simpl; lia)) Hpc) as Hfin.
  pose proof (inv_job _ _ _ _ HI _ _ Hpc) as Hok.
  unfold job_ok in Hok. rewrite Hpg in Hok. rewrite Hpc.
  destruct pc; try done. by rewrite Hok.
Qed.

(** The files after a call that returned: over the files from before, the
    frame of every page that can be extracted and saved, under the path of
    its index, and what the saves that raised have left. *)
Lemma returned_files s pages :
  Inv s → st_main s = MReturned → container c f0 = Some pages →
  st_files s = expected_files c f0 pages.
Proof.
  intros HI Hm Hc.
  destruct (returned_jobs s pages HI Hm Hc) as [Hlen Hjobs].
  destruct (inv_img _ _ _ _ HI) as [Him _]; [rewrite Hm; simpl; lia|].
  assert (img_pages s = pages) as Hpg.
  { unfold img_pages. by rewrite Him, Hc. }
  apply map_eq. intros p.
  destruct (decide (p ∈ fpath <$> seq 0 (length pages))) as [Hin|Hout].
  - apply list_elem_of_fmap in Hin as (i & -> & Hi%elem_of_seq).
    rewrite expected_files_lookup by lia.
    pose proof (Hjobs i ltac:(lia)) as Hpc.
    unfold outcome in Hpc. unfold file_after.
    destruct (page_frame (pages !! i)) as [frame|] eqn:Hfr.
    + destruct (save_ok (fpath i) frame) eqn:Hok.
      * destruct (inv_saved _ _ _ _ HI i Hpc) as (frame' & Hfr' & Hfl).
        rewrite Hpg in Hfr'. congruence.
      * destruct (inv_junk _ _ _ _ HI i Hpc) as (frame' & Hfr' & Hfl).
        rewrite Hpg in Hfr'. congruence.
    + apply (inv_other _ _ _ _ HI).
      intros j pc Hj Hw <-%frame_path_inj. rewrite Hpc in Hj.
      by simplify_eq.
  - rewrite expected_files_lookup_other.
    + apply (inv_other _ _ _ _ HI). intros i pc Hi _ ->. apply Hout.
      apply list_elem_of_fmap. exists i. split; [done|].
      apply elem_of_seq. apply lookup_lt_Some in Hi. lia.
    + intros i Hi ->. apply Hout. apply list_elem_of_fmap. exists i.
      split; [done|]. apply elem_of_seq. lia.
Qed.

(** The file system and the result after a call are functions of the file
    system before. *)
Lemma final_fs sched s :
  run c (init d0 f0) sched = Some s → finished s = true →
  (st_dirs s, st_files s) = expected_fs c d0 f0 ∧
  result s = Some (match container c f0 with
                   | Some _ => RNone
                   | None => RRaise (early_error c f0)
                   end).
Proof.
  intros Hrun Hfin.
  pose proof (inv_run _ _ _ _ _ _ (inv_init c d0 f0) Hrun) as HI.
  pose proof (inv_dirs _ _ _ _ HI) as Hd.
  unfold finished in Hfin. unfold expected_fs, result.
  destruct (st_main s) as [| | | | | | | | | | | | |e] eqn:Hm;
    try done; simpl in Hd.
  - destruct (inv_img _ _ _ _ HI) as [Him [pages Hp]]; [rewrite Hm; simpl; lia|].
    rewrite Him in Hp. rewrite Hp.
    destruct (proj1 (container_Some c f0 pages) Hp) as (-> & _ & _).
    by rewrite Hd, (returned_files s pages HI Hm Hp).
  - pose proof (inv_raised _ _ _ _ HI e Hm) as He.
    destruct (inv_early _ _ _ _ HI) as [_ ->]; [rewrite Hm; simpl; lia|].
    unfold container, early_error. unfold opened in *.
    destruct e; try done.
    + by rewrite He, Hd.
    + destruct He as [-> ->]. by rewrite Hd.
    + destruct He as (pages & Hop & Hcnt).
      destruct (makedirs_ok c f0); [|done]. rewrite Hop. simpl.
      unfold countable. by rewrite Hcnt, Hd.
Qed.





(** A page that is extracted and saved has been written by its job. *)
Lemma returned_saves sched s pages i :
  run c (init d0 f0) sched = Some s → finished s = true →
  container c f0 = Some pages → i < length pages →
  outcome c i (pages !! i) = None →
  EvSave i (fpath i) ∈ st_trace s.
Proof.
  intros Hrun Hfin Hc Hi Hout.
  pose proof (inv_run _ _ _ _ _ _ (inv_init c d0 f0) Hrun) as HI.
  destruct (final_fs sched s Hrun Hfin) as [_ Hres]. rewrite Hc in Hres.
  assert (st_main s = MReturned) as Hm.
  { unfold result in Hres. by destruct (st_main s). }
  destruct (returned_jobs s pages HI Hm Hc) as [_ Hjobs].
  apply (elem_of_proj _ (TJob i)).
  rewrite (inv_job_hist _ _ _ _ HI), (Hjobs i Hi), Hout.
  unfold job_history. apply list_elem_of_here.
Qed.

End Outcome.

(** ** Running the call again *)

Section Rerun.

Context `{PIL : Imaging Page Frame Content}.
Variable c : Call.
(** The file system on which [tiff2jpeg] is called. *)
Variable d0 : gset string.
Variable f0 : gmap string Content.

Implicit Types s : State (Page:=Page) (Frame:=Frame) (Content:=Content).
Implicit Types pc : JobPc Frame.

Local Abbreviation fpath := (frame_path c).
Local Abbreviation Inv := (Inv c d0 f0).

(** What a call does to the files depends on the call through its two paths
    only, not through the size of the pool. *)
Lemma call_paths (c' : Call) :
  tiff_path c' = tiff_path c → output_folder c' = output_folder c →
  (∀ i, frame_path c' i = fpath i) ∧
  (∀ i p, outcome c' i p = outcome c i p) ∧
  (∀ f : gmap string Content, container c' f = container c f) ∧
  (∀ (f : gmap string Content) pages,
     expected_files c' f pages = expected_files c f pages) ∧
  (∀ d (f : gmap string Content), expected_fs c' d f = expected_fs c d f).
Proof.
  intros Ht Ho.
  unfold expected_fs, container, opened, makedirs_ok, expected_files,
    write_frame, outcome, frame_path.
  rewrite Ht, Ho. done.
Qed.

(** The files that a call leaves are a container for the next call, when the
    input file is none of the files of the frames. *)
Lemma container_after pages :
  container c f0 = Some pages →
  (∀ i, i < length pages → tiff_path c ≠ fpath i) →
  container c (expected_files c f0 pages) = Some pages.
Proof.
  intros (Hmk & Hop & Hcnt)%container_Some Hin. apply container_Some.
  assert (expected_files c f0 pages !! output_folder c
          = f0 !! output_folder c) as Hout.
  { apply expected_files_lookup_other. intros i _ Heq.
    by apply (jpeg_filename_neq_folder (output_folder c) (Z.of_nat i)). }
  assert (∀ p, p ∈ parent_dirs (output_folder c) →
            expected_files c f0 pages !! p = f0 !! p) as Hup.
  { intros p Hp. apply expected_files_lookup_other. intros i _ ->.
    apply parent_dirs_shorter in Hp.
    pose proof (jpeg_filename_longer (output_folder c) (Z.of_nat i)).
    unfold frame_path in Hp. lia. }
  split; [|split; [|done]].
  - rewrite <- Hmk. unfold makedirs_ok. rewrite Hout. do 2 f_equal.
    apply bool_decide_ext. split; intros HF p Hp; specialize (HF p Hp).
    + by rewrite <- (Hup p Hp).
    + by rewrite (Hup p Hp).
  - by rewrite expected_files_lookup_other.
Qed.

(** C8. A call on a container can be run to its end, and so can a second
    call, with any pool, on what the first one left.  Both return None.
    Every page that is extracted and saved is written by its job in the
    first call and again in the second, and its file holds the frame of the
    page after either call.  The second call leaves every file and directory
    as the first one left them: nothing but the files of the frames differs
    from the files before the calls.  And the files and directories after a
    call are the same for every schedule and every size of the pool. *)
Theorem rerun_same_files (c' : Call) pages :
  tiff_path c' = tiff_path c → output_folder c' = output_folder c →
  container c f0 = Some pages →
  (∀ i, i < length pages → tiff_path c ≠ fpath i) →
  (∀ i frame, i < length pages → page_frame (pages !! i) = Some frame →
     save_ok (fpath i) frame = false →
     save_junk (fpath i) frame (save_junk (fpath i) frame (f0 !! fpath i))
     = save_junk (fpath i) frame (f0 !! fpath i)) →
  0 < max_workers c → 0 < max_workers c' →
  (∃ sched1 s1, run c (init d0 f0) sched1 = Some s1 ∧ finished s1 = true) ∧
  ∀ sched1 s1, run c (init d0 f0) sched1 = Some s1 → finished s1 = true →
    (∃ sched2 s2, run c' (init (st_dirs s1) (st_files s1)) sched2 = Some s2 ∧
                  finished s2 = true) ∧
    ∀ sched2 s2,
      run c' (init (st_dirs s1) (st_files s1)) sched2 = Some s2 →
      finished s2 = true →
      result s1 = Some RNone ∧ result s2 = Some RNone ∧
      (∀ i frame, i < length pages →
         page_frame (pages !! i) = Some frame →
         save_ok (fpath i) frame = true →
         EvSave i (fpath i) ∈ st_trace s1 ∧
         st_files s1 !! fpath i = Some (save_jpeg frame) ∧
         EvSave i (fpath i) ∈ st_trace s2 ∧
         st_files s2 !! fpath i = Some (save_jpeg frame)) ∧
      st_files s2 = st_files s1 ∧ st_dirs s2 = st_dirs s1 ∧
      (∀ p, p ∉ fpath <$> seq 0 (length pages) →
         st_files s2 !! p = f0 !! p) ∧
      (∀ sched s, run c' (init d0 f0) sched = Some s → finished s = true →
         st_files s = st_files s1 ∧ st_dirs s = st_dirs s1).
Proof.
  intros Ht Ho Hc Hin Hjunk Hw Hw'.
  destruct (call_paths c' Ht Ho) as (Hpath & Hout & Hcont & Hfiles & Hfs).
  split; [apply (run_completes c d0 f0); [apply inv_init|done]|].
  intros sched1 s1 Hrun1 Hfin1.
  split; [apply (run_completes c' (st_dirs s1) (st_files s1));
          [apply inv_init|done]|].
  intros sched2 s2 Hrun2 Hfin2.
  destruct (final_fs c d0 f0 sched1 s1 Hrun1 Hfin1) as [Hfs1 Hres1].
  destruct (final_fs c' _ _ sched2 s2 Hrun2 Hfin2) as [Hfs2 Hres2].
  rewrite Hc in Hres1.
  destruct (proj1 (container_Some c f0 pages) Hc) as (Hmk & _ & _).
  assert (st_dirs s1 = {[output_folder c]} ∪ parent_dirs (output_folder c) ∪ d0
          ∧ st_files s1 = expected_files c f0 pages) as [Hd1 Hf1].
  { unfold expected_fs in Hfs1. rewrite Hmk, Hc in Hfs1. by simplify_eq. }
  assert (container c (st_files s1) = Some pages) as Hc2.
  { rewrite Hf1. by apply container_after. }
  rewrite Hcont, Hc2 in Hres2. rewrite Hfs in Hfs2.
  destruct (proj1 (container_Some c _ pages) Hc2) as (Hmk2 & _ & _).
  assert (st_dirs s2 = st_dirs s1 ∧ st_files s2 = st_files s1) as [Hd2 Hf2].
  { unfold expected_fs in Hfs2. rewrite Hmk2, Hc2 in Hfs2.
    injection Hfs2 as -> ->. split.
    - rewrite Hd1. set_solver.
    - rewrite Hf1. by apply expected_files_again. }
  split; [done|]. split; [done|]. split; [|split; [done|split; [done|split]]].
  - intros i frame Hi Hfr Hok.
    assert (outcome c i (pages !! i) = None) as Hnone
      by (unfold outcome; by rewrite Hfr, Hok).
    assert (st_files s1 !! fpath i = Some (save_jpeg frame)) as Hfile.
    { rewrite Hf1, expected_files_lookup by done.
      unfold file_after. by rewrite Hfr, Hok. }
    split; [by eapply returned_saves|]. split; [done|].
    split; [|by rewrite Hf2].
    rewrite <- Hpath.
    apply (returned_saves c' (st_dirs s1) (st_files s1) sched2 s2 pages i);
      [done|done|by rewrite Hcont|done|by rewrite Hout].
  - intros p Hp. rewrite Hf2, Hf1. apply expected_files_lookup_other.
    intros i Hi ->. apply Hp. apply list_elem_of_fmap. exists i.
    split; [done|]. apply elem_of_seq. lia.
  - intros sched s Hrun Hfin.
    destruct (final_fs c' d0 f0 sched s Hrun Hfin) as [Hfs' _].
    rewrite Hfs, <- Hfs1 in Hfs'. by injection Hfs' as -> ->.
Qed.

End Rerun.

(** ** The paths of the output files *)

Section Paths.

Context `{PIL : Imaging Page Frame Content}.
Variable c : Call.
(** The file system on which [tiff2jpeg] is called. *)
Variable d0 : gset string.
Variable f0 : gmap string Content.

Implicit Types s : State (Page:=Page) (Frame:=Frame) (Content:=Content).
Implicit Types pc : JobPc Frame.

Local Abbreviation fpath := (frame_path c).
Local Abbreviation Inv := (Inv c d0 f0).

(** A file is written by the job of its index, under the path of the index. *)
Lemma saved_path sched s i fn :
  run c (init d0 f0) sched = Some s → EvSave i fn ∈ st_trace s →
  fn = fpath i.
Proof.
  intros Hrun Hin.
  pose proof (inv_run _ _ _ _ _ _ (inv_init c d0 f0) Hrun) as HI.
  assert (EvSave i fn ∈ proj (TJob i) (st_trace s)) as Hin'.
  { unfold proj. by apply list_elem_of_filter. }
  rewrite (inv_job_hist _ _ _ _ HI) in Hin'.
  destruct (st_futures s !! i) as [pc|]; [|by apply elem_of_nil in Hin'].
  unfold job_history in Hin'.
  destruct pc as [| | | | |? [?|]| |[?|]]; simpl in Hin';
    repeat case_match;
    repeat (apply elem_of_cons in Hin' as [Hin'|Hin']; simplify_eq/=);
    try done; by apply elem_of_nil in Hin'.
Qed.

(** C10. The path of a frame determines its index: two indices with the same
    file name or the same path are equal.  The digits of an index take five
    characters up to 99999 and more from 100000 on, never fewer.  Hence, in
    every run, two writes to the same path are writes of the same job. *)
Theorem frame_paths_injective :
  (∀ (out : string) (i j : Z),
     jpeg_filename out i = jpeg_filename out j → i = j) ∧
  (∀ i j : Z, frame_name i = frame_name j → i = j) ∧
  (∀ i : Z, 5 ≤ String.length (format_05d i)) ∧
  (∀ i : Z, (0 ≤ i < 100000)%Z → String.length (format_05d i) = 5) ∧
  (∀ i : Z, (100000 ≤ i)%Z → 5 < String.length (format_05d i)) ∧
  (∀ sched s i j fn,
     run c (init d0 f0) sched = Some s →
     EvSave i fn ∈ st_trace s → EvSave j fn ∈ st_trace s → i = j).
Proof.
  split; [apply jpeg_filename_inj|]. split; [apply frame_name_inj|].
  split; [apply format_05d_min_width|].
  split; [apply format_05d_width_small|].
  split; [apply format_05d_width_large|].
  intros sched s i j fn Hrun Hi Hj.
  apply (frame_path_inj c).
  by rewrite <- (saved_path sched s i fn), <- (saved_path sched s j fn).
Qed.

End Paths.

(** ** The order of the file names *)

Section NameOrder.

Local Open Scope Z_scope.

(** The number that digits denote, by the digits read so far. *)
Lemma of_uint_acc_value u (acc : positive) :
  Z.pos (Pos.of_uint_acc u acc)
  = Z.pos acc * 10 ^ Z.of_nat (nb_digits u) + Z.of_uint u.
Proof.
  revert acc.
  induction u as [|u IH|u IH|u IH|u IH|u IH|u IH|u IH|u IH|u IH|u IH];
    intros acc; cbn [Pos.of_uint_acc nb_digits];
    [ rewrite Z.pow_0_r; change (Z.of_uint Nil) with 0; lia
    | rewrite IH, Nat2Z.inj_succ, Z.pow_succ_r by lia;
      change (Z.of_uint (D0 u)) with (Z.of_uint u); lia
    | rewrite IH, Nat2Z.inj_succ, Z.pow_succ_r by lia;
      unfold Z.of_uint at 2; cbn [Pos.of_uint Z.of_N];
      rewrite IH; lia .. ].
Qed.

(** ... and by the first digit. *)
Lemma of_uint_head u :
  Z.of_uint u =
    match u with
    | Nil => 0
    | D0 v => 0 * 10 ^ Z.of_nat (nb_digits v) + Z.of_uint v
    | D1 v => 1 * 10 ^ Z.of_nat (nb_digits v) + Z.of_uint v
    | D2 v => 2 * 10 ^ Z.of_nat (nb_digits v) + Z.of_uint v
    | D3 v => 3 * 10 ^ Z.of_nat (nb_digits v) + Z.of_uint v
    | D4 v => 4 * 10 ^ Z.of_nat (nb_digits v) + Z.of_uint v
    | D5 v => 5 * 10 ^ Z.of_nat (nb_digits v) + Z.of_uint v
    | D6 v => 6 * 10 ^ Z.of_nat (nb_digits v) + Z.of_uint v
    | D7 v => 7 * 10 ^ Z.of_nat (nb_digits v) + Z.of_uint v
    | D8 v => 8 * 10 ^ Z.of_nat (nb_digits v) + Z.of_uint v
    | D9 v => 9 * 10 ^ Z.of_nat (nb_digits v) + Z.of_uint v
    end.
Proof.
  destruct u as [|v|v|v|v|v|v|v|v|v|v];
    [ reflexivity
    | change (Z.of_uint (D0 v)) with (Z.of_uint v); lia
    | unfold Z.of_uint at 1; cbn [Pos.of_uint Z.of_N];
      rewrite of_uint_acc_value; reflexivity .. ].
Qed.

Lemma of_uint_nonneg u : 0 ≤ Z.of_uint u.
Proof. unfold Z.of_uint. apply N2Z.is_nonneg. Qed.

(** Digit strings of the same length compare as the numbers they denote. *)
Lemma compare_digits u v :
  nb_digits u = nb_digits v →
  String.compare (NilEmpty.string_of_uint u) (NilEmpty.string_of_uint v)
  = (Z.of_uint u ?= Z.of_uint v).
Proof.
  revert v.
  induction u as [|u IH|u IH|u IH|u IH|u IH|u IH|u IH|u IH|u IH|u IH];
    intros [|v|v|v|v|v|v|v|v|v|v] Hn; try discriminate Hn;
    [ reflexivity
    | injection Hn as Hn; specialize (IH v Hn);
      match goal with
      | |- _ = (Z.of_uint ?a ?= Z.of_uint ?b) =>
          rewrite (of_uint_head a), (of_uint_head b)
      end;
      pose proof (of_uint_upper u); pose proof (of_uint_upper v);
      pose proof (of_uint_nonneg u); pose proof (of_uint_nonneg v);
      rewrite <- Hn in *;
      generalize dependent (10 ^ Z.of_nat (nb_digits u)); intros P ? ?;
      simpl (String.compare _ _);
      first [ rewrite Z.add_compare_mono_l; exact IH
            | symmetry; apply Z.compare_lt_iff; lia
            | symmetry; apply Z.compare_gt_iff; lia ] .. ].
Qed.

Lemma string_compare_refl (s : string) : String.compare s s = Eq.
Proof.
  induction s as [|a s IH]; [reflexivity|].
  simpl. unfold Ascii.compare. by rewrite N.compare_refl.
Qed.

(** A common suffix after strings of the same length, or a common prefix,
    does not change how two strings compare. *)
Lemma string_compare_suffix (a b s : string) :
  String.length a = String.length b →
  String.compare (a +:+ s) (b +:+ s) = String.compare a b.
Proof.
  revert b. induction a as [|x a IH]; intros [|y b] Hl; try discriminate Hl.
  - apply string_compare_refl.
  - injection Hl as Hl. rewrite !append_cons. simpl.
    destruct (Ascii.compare x y); [by apply IH|done..].
Qed.

Lemma string_compare_prefix (p a b : string) :
  String.compare (p +:+ a) (p +:+ b) = String.compare a b.
Proof.
  induction p as [|x p IH]; [reflexivity|].
  rewrite !append_cons. simpl.
  unfold Ascii.compare. by rewrite N.compare_refl.
Qed.

(** The digits of an index that is not negative. *)
Lemma format_05d_digits (i : Z) :
  0 ≤ i →
  ∃ u, format_05d i = NilEmpty.string_of_uint (zfill 5 u) ∧
       Z.of_uint (zfill 5 u) = i.
Proof.
  intros Hi. pose proof (DecimalZ.of_to i) as Hv.
  unfold format_05d.
  destruct (Z.to_int i) as [u|u] eqn:Hu.
  - exists u. split; [reflexivity|]. by rewrite of_uint_zfill.
  - by destruct i.
Qed.

Lemma format_05d_compare (i j : Z) :
  0 ≤ i → 0 ≤ j →
  String.length (format_05d i) = String.length (format_05d j) →
  String.compare (format_05d i) (format_05d j) = (i ?= j).
Proof.
  intros Hi Hj Hl.
  destruct (format_05d_digits i Hi) as (u & Hu & Hvu).
  destruct (format_05d_digits j Hj) as (v & Hv & Hvv).
  rewrite Hu, Hv in Hl |- *. rewrite !string_of_uint_length in Hl.
  by rewrite (compare_digits _ _ Hl), Hvu, Hvv.
Qed.

(** X2. The names of the frames sort as their indices do: for indices below
    100000 the file names, and the paths in one folder, compare as strings
    exactly as the indices compare as numbers.  The bound is needed: the
    name of frame 100000 sorts before the name of frame 99999. *)
Theorem frame_names_sorted :
  (∀ (out : string) (i j : Z),
     0 ≤ i < 100000 → 0 ≤ j < 100000 →
     String.compare (frame_name i) (frame_name j) = (i ?= j) ∧
     String.compare (jpeg_filename out i) (jpeg_filename out j) = (i ?= j)) ∧
  String.compare (frame_name 100000) (frame_name 99999) = Lt.
Proof.
  split; [|reflexivity].
  intros out i j Hi Hj.
  assert (String.compare (frame_name i) (frame_name j) = (i ?= j)) as Hn.
  { unfold frame_name.
    rewrite string_compare_suffix
      by (by rewrite !format_05d_width_small).
    apply format_05d_compare; [lia..|].
    by rewrite !format_05d_width_small. }
  split; [exact Hn|].
  rewrite !path_join_frame_name.
  destruct (is_empty out || endswith_sep out);
    by rewrite !string_compare_prefix.
Qed.

Lemma substring_append (a b : string) :
  String.substring 0 (String.length a) (a +:+ b) = a.
Proof.
  induction a as [|x a IH]; [by destruct b|].
  rewrite append_cons. simpl. by rewrite IH.
Qed.

(** X1. The name of a frame reads back as its index: without its last four
    characters, the extension, the name is a decimal numeral, and this
    numeral denotes the index, for every integer. *)
Theorem frame_name_round_trip (i : Z) :
  let digits :=
    String.substring 0 (String.length (frame_name i) - 4)%nat (frame_name i) in
  frame_name i = digits +:+ ".jpg" ∧
  Z.of_int <$> NilEmpty.int_of_string digits = Some i.
Proof.
  unfold frame_name. rewrite append_length. simpl String.length.
  rewrite Nat.add_sub, substring_append.
  split; [reflexivity|apply format_05d_read].
Qed.

(** X3. [os.path.join] never drops the folder here: a file name does not
    start with the separator, so the path of a frame is the folder, a
    separator unless the folder is empty or ends with one, and the name. *)
Theorem jpeg_filename_keeps_folder (out : string) (i : Z) :
  startswith_sep (frame_name i) = false ∧
  jpeg_filename out i =
    out +:+ (if is_empty out || endswith_sep out then "" else "/")
        +:+ frame_name i ∧
  (String.length out + String.length (frame_name i)
    ≤ String.length (jpeg_filename out i)
    ≤ String.length out + 1 + String.length (frame_name i))%nat.
Proof.
  split; [apply frame_name_nosep|].
  rewrite path_join_frame_name.
  destruct (is_empty out || endswith_sep out);
    (split; [reflexivity|]); rewrite !append_length; simpl; lia.
Qed.

End NameOrder.

(** ** What a call keeps, and how it ends *)

Section Safety.

Context `{PIL : Imaging Page Frame Content}.
Variable c : Call.
(** The file system on which [tiff2jpeg] is called. *)
Variable d0 : gset string.
Variable f0 : gmap string Content.

Implicit Types s : State (Page:=Page) (Frame:=Frame) (Content:=Content).
Implicit Types pc : JobPc Frame.

Local Abbreviation fpath := (frame_path c).
Local Abbreviation Inv := (Inv c d0 f0).
Local Abbreviation pool_ok := (pool_ok c).

(** The main thread writes no file. *)
Lemma step_main_files s s' :
  step_main c s = Some s' → st_files s' = st_files s.
Proof.
  unfold step_main. intros Hstep.
  destruct (st_main s); repeat case_match; by simplify_eq/=.
Qed.

(** A job is the job of a page of the container. *)
Lemma job_pages s i pc :
  Inv s → st_futures s !! i = Some pc →
  ∃ pages, container c f0 = Some pages ∧ img_pages s = pages ∧
           i < length pages.
Proof.
  intros HI Hi.
  assert (6 ≤ stage (st_main s)) as Hst.
  { destruct (decide (stage (st_main s) ≤ 5)) as [Hle|]; [|lia].
    apply (inv_early _ _ _ _ HI) in Hle as [Hnil _].
    by rewrite Hnil, lookup_nil in Hi. }
  destruct (inv_img _ _ _ _ HI) as [Him [pages Hpages]]; [lia|].
  exists pages. split; [congruence|].
  assert (img_pages s = pages) as Hpg by (unfold img_pages; by rewrite Hpages).
  split; [done|].
  pose proof (inv_total _ _ _ _ HI ltac:(lia)) as Htot. rewrite Hpg in Htot.
  pose proof (inv_nfut _ _ _ _ HI) as Hn.
  apply lookup_lt_Some in Hi.
  destruct (st_main s); simpl in Hst; try lia; simpl in Hn; lia.
Qed.

(** X6. A call takes nothing away but at the paths of its frames.  Every
    directory from before stays, and the output folder is one once line 31
    has made it.  A path holds what it held before the call unless it is the
    path of a page whose job has come to its save at line 21; so do the path
    of a page that cannot be extracted, the input file when it is not the
    path of a frame, and every path when lines 31 to 35 raise.  Once the
    save of a page has returned, its path holds the frame of the page; once
    it has raised, what the failed save has made of the file from before the
    call. *)
Theorem files_change_at_saves_only sched s :
  run c (init d0 f0) sched = Some s →
  d0 ⊆ st_dirs s ∧
  (EvMakedirs ∈ st_trace s → output_folder c ∈ st_dirs s) ∧
  (∀ p, (∀ i pc, st_futures s !! i = Some pc → at_save pc = true →
           p ≠ fpath i) →
        st_files s !! p = f0 !! p) ∧
  (∀ i, st_futures s !! i = Some (JFinished None) →
     ∃ pages frame,
       container c f0 = Some pages ∧ i < length pages ∧
       page_frame (pages !! i) = Some frame ∧
       save_ok (fpath i) frame = true ∧
       st_files s !! fpath i = Some (save_jpeg frame)) ∧
  (∀ i, st_futures s !! i = Some (JFinished (Some WriteError)) →
     ∃ pages frame,
       container c f0 = Some pages ∧ i < length pages ∧
       page_frame (pages !! i) = Some frame ∧
       save_ok (fpath i) frame = false ∧
       st_files s !! fpath i = save_junk (fpath i) frame (f0 !! fpath i)) ∧
  (∀ pages i, container c f0 = Some pages →
     page_frame (pages !! i) = None →
     st_files s !! fpath i = f0 !! fpath i) ∧
  ((∀ i, tiff_path c ≠ fpath i) →
     st_files s !! tiff_path c = f0 !! tiff_path c) ∧
  (container c f0 = None → st_files s = f0).
Proof.
  intros Hrun.
  pose proof (inv_run _ _ _ _ _ _ (inv_init c d0 f0) Hrun) as HI.
  pose proof (inv_dirs _ _ _ _ HI) as Hd.
  assert (∀ pc, wrote pc = true → at_save pc = true) as Hws.
  { by intros [| | | | | | |[[]|]]. }
  split; [|split; [|split; [|split; [|split; [|split; [|split]]]]]].
  - destruct (st_main s) as [| | | | | | | | | | | | |[]]; set_solver.
  - intros Hin.
    assert (EvMakedirs ∈ proj TMain (st_trace s)) as Hin'
      by (unfold proj; by apply list_elem_of_filter).
    clear Hin. rename Hin' into Hin.
    rewrite (inv_main_hist _ _ _ _ HI) in Hin.
    destruct (st_main s) as [| | | | | | | | | | | | |[]];
      first [set_solver | by (unfold main_history in Hin; set_solver)].
  - intros p Hp. apply (inv_other _ _ _ _ HI). intros i pc Hi Hw.
    apply (Hp i pc Hi). by apply Hws.
  - intros i Hi.
    destruct (job_pages s i _ HI Hi) as (pages & Hc & Hpg & Hlt).
    destruct (inv_saved _ _ _ _ HI i Hi) as (frame & Hfr & Hfile).
    pose proof (inv_job _ _ _ _ HI i _ Hi) as Hok. simpl in Hok.
    rewrite Hpg in Hfr, Hok. exists pages, frame.
    repeat split; try done.
    unfold outcome in Hok. rewrite Hfr in Hok.
    by destruct (save_ok (fpath i) frame).
  - intros i Hi.
    destruct (job_pages s i _ HI Hi) as (pages & Hc & Hpg & Hlt).
    destruct (inv_junk _ _ _ _ HI i Hi) as (frame & Hfr & Hfile).
    pose proof (inv_job _ _ _ _ HI i _ Hi) as Hok. simpl in Hok.
    rewrite Hpg in Hfr, Hok. exists pages, frame.
    repeat split; try done.
    unfold outcome in Hok. rewrite Hfr in Hok.
    by destruct (save_ok (fpath i) frame).
  - intros pages i Hc Hbad. apply (inv_other _ _ _ _ HI).
    intros j pc Hj Hw <-%frame_path_inj.
    destruct (job_pages s i _ HI Hj) as (pages' & Hc' & Hpg & _).
    pose proof (inv_job _ _ _ _ HI i _ Hj) as Hok.
    assert (pages' = pages) as -> by congruence.
    destruct pc as [| | | | | | |e]; try done. simpl in Hok.
    rewrite Hpg in Hok. unfold outcome in Hok. rewrite Hbad in Hok.
    by subst e.
  - intros Hne. apply (inv_other _ _ _ _ HI). intros i pc _ _. apply Hne.
  - intros Hc. apply map_eq. intros p. apply (inv_other _ _ _ _ HI).
    intros i pc Hi _.
    destruct (job_pages s i _ HI Hi) as (pages & Hc' & _). congruence.
Qed.

(** Every step uses up some of the work that is left. *)
Lemma run_work_left s sched s' :
  Inv s → run c s sched = Some s' →
  length sched + work_left c s' ≤ work_left c s.
Proof.
  revert s. induction sched as [|t sched IH]; intros s HI Hrun; simpl in Hrun.
  - injection Hrun as <-. simpl. lia.
  - destruct (step c s t) as [s1|] eqn:Hstep; [|done].
    pose proof (step_work_left _ _ _ _ _ _ HI Hstep).
    pose proof (IH s1 (inv_step _ _ _ _ _ _ HI Hstep) Hrun).
    simpl. lia.
Qed.

(** X5. The call always comes to an end.  No run takes more than eleven
    steps and ten per page; in a state that a run has reached, some thread
    can advance unless the call is over, and the run can be carried on to
    the end of the call; and once the call is over no thread advances any
    more: no job outlives the call. *)
Theorem call_terminates sched s :
  run c (init d0 f0) sched = Some s →
  length sched ≤ 10 * from_option length 0 (container c f0) + 11 ∧
  (0 < max_workers c → finished s = false → ∃ t, is_Some (step c s t)) ∧
  (0 < max_workers c →
     ∃ sched' s', run c (init d0 f0) (sched ++ sched') = Some s' ∧
                  finished s' = true) ∧
  (finished s = true → ∀ t, step c s t = None).
Proof.
  intros Hrun.
  pose proof (inv_run _ _ _ _ _ _ (inv_init c d0 f0) Hrun) as HI.
  split; [|split; [|split]].
  - pose proof (run_work_left _ _ _ (inv_init c d0 f0) Hrun) as Hw.
    assert (work_left c (init d0 f0)
            = 10 * from_option length 0 (container c f0) + 11) as Hinit
      by (unfold work_left, main_rank; simpl; lia).
    lia.
  - intros Hw Hfin.
    destruct (deadlock_free _ _ _ _ HI Hw Hfin) as (t & s' & Hstep).
    exists t. by rewrite Hstep.
  - intros Hw.
    destruct (run_completes _ _ _ _ HI Hw) as (sched' & s' & Hrun' & Hfin).
    exists sched', s'. by rewrite run_app, Hrun.
  - intros Hfin t. unfold finished in Hfin.
    destruct (st_main s) eqn:Hm; try done.
    + by apply (returned_stuck c d0 f0).
    + by apply (raised_stuck c d0 f0 s t e).
Qed.

Lemma filter_all {A} (P : A → Prop) `{!∀ x, Decision (P x)} (l : list A) :
  Forall P l → filter P l = l.
Proof.
  induction 1 as [|x l Hx _ IH]; [done|].
  by rewrite filter_cons_True, IH.
Qed.

(** The updates of the progress bar in the history of the main thread. *)
Lemma update_events n m :
  filter (λ ev, is_update_ev ev = true) (main_history n m)
  = reverse (EvUpdate <$> seq 1
      (match m with
       | MLine47 k => k
       | _ => if decide (8 ≤ stage m) then n else 0
       end)).
Proof.
  assert (∀ k, filter (λ ev, is_update_ev ev = true)
                 (reverse (EvUpdate <$> seq 1 k))
               = reverse (EvUpdate <$> seq 1 k)) as Hall.
  { intros k. apply filter_all, Forall_forall.
    by intros ev [x [-> _]]%elem_of_reverse%list_elem_of_fmap. }
  destruct m as [| | | | | | | | | | | | |[]]; unfold main_history;
    repeat first [ rewrite filter_app | rewrite filter_cons
                 | rewrite Hall
                 | rewrite filter_reverse_fmap_nil by done ];
    simpl; rewrite ?app_nil_r; reflexivity.
Qed.

Lemma pbar_mono sched1 s1 sched2 s2 :
  run c (init d0 f0) sched1 = Some s1 → run c s1 sched2 = Some s2 →
  st_pbar s1 ≤ st_pbar s2.
Proof.
  revert sched1 s1.
  induction sched2 as [|t sched2 IH]; intros sched1 s1 Hrun1 Hrun2;
    simpl in Hrun2.
  - by injection Hrun2 as <-.
  - destruct (step c s1 t) as [s'|] eqn:Hstep; [|done].
    destruct (progress_counter c d0 f0 sched1 s1 Hrun1) as [Hs _].
    destruct (Hs t s' Hstep) as [[Hle _] _].
    etrans; [exact Hle|].
    apply (IH (sched1 ++ [t]) s'); [|done].
    rewrite run_app, Hrun1. simpl. by rewrite Hstep.
Qed.

(** X4. The counter of the progress bar never goes down in a run and never
    exceeds the number of pages; the values that the bar has shown are
    1, 2, ... up to the counter, each once and in this order; and when the
    call returns the counter is the number of pages. *)
Theorem counter_counts_up sched1 s1 sched2 s2 :
  run c (init d0 f0) sched1 = Some s1 → run c s1 sched2 = Some s2 →
  st_pbar s1 ≤ st_pbar s2 ∧
  st_pbar s2 ≤ from_option length 0 (container c f0) ∧
  filter (λ ev, is_update_ev ev = true) (st_trace s2)
    = reverse (EvUpdate <$> seq 1 (st_pbar s2)) ∧
  (result s2 = Some RNone →
     st_pbar s2 = from_option length 0 (container c f0)).
Proof.
  intros Hrun1 Hrun2.
  assert (run c (init d0 f0) (sched1 ++ sched2) = Some s2) as Hrun
    by (by rewrite run_app, Hrun1).
  pose proof (inv_run _ _ _ _ _ _ (inv_init c d0 f0) Hrun) as HI.
  destruct (progress_counter c d0 f0 _ s2 Hrun) as (_ & Hle & Hret).
  pose proof (pbar_zero_before c d0 f0 _ s2 Hrun) as Hz.
  pose proof (inv_pbar _ _ _ _ HI) as Hp.
  assert (3 ≤ stage (st_main s2) →
          st_total s2 = from_option length 0 (container c f0)) as Htot.
  { intros Hst. rewrite (inv_total _ _ _ _ HI Hst).
    destruct (inv_img _ _ _ _ HI) as [<- _]; [lia|].
    unfold img_pages. by destruct (st_img s2). }
  split; [by eapply pbar_mono|]. split; [|split].
  - destruct (decide (4 ≤ stage (st_main s2))) as [Hst|Hst].
    + rewrite <- Htot by lia. by apply Hle.
    + rewrite Hz by lia. lia.
  - assert (∀ ev, is_update_ev ev = true → event_tid ev = TMain) as Hupd
      by (by intros []).
    rewrite <- (filter_proj_main _ _ Hupd), (inv_main_hist _ _ _ _ HI).
    rewrite update_events. do 3 f_equal.
    destruct (st_main s2); simpl in *; try case_decide; lia.
  - intros Hr. destruct (Hret Hr) as [-> _]. apply Htot.
    unfold result in Hr. destruct (st_main s2); simpl; try done; lia.
Qed.



Lemma total_pages s :
  Inv s → 3 ≤ stage (st_main s) →
  st_total s = from_option length 0 (container c f0).
Proof.
  intros HI Hst. rewrite (inv_total _ _ _ _ HI Hst).
  destruct (inv_img _ _ _ _ HI) as [<- _]; [lia|].
  unfold img_pages. by destruct (st_img s).
Qed.




(** *** The pool *)

Lemma step_main_futures s s' :
  step_main c s = Some s' →
  st_futures s' = st_futures s ∨ st_futures s' = st_futures s ++ [JPending]
  ∨ st_futures s' = [].
Proof.
  unfold step_main. intros Hstep.
  destruct (st_main s); repeat case_match; simplify_eq/=; eauto.
Qed.

(** A step of a job: it never goes back to the queue, and it takes a worker
    only when the pool lets it start. *)
Lemma step_job_pool s i pc s' :
  step_job c s i pc = Some s' →
  ∃ pc', st_futures s' = <[i:=pc']> (st_futures s) ∧
         is_pending pc' = false ∧
         (is_pending pc = true → can_start c s i = true) ∧
         (is_pending pc = false → is_running pc' = true → is_running pc = true).
Proof.
  intros Hstep. destruct pc; simpl in Hstep;
    repeat case_match; simplify_eq/=; eexists; (split; [reflexivity|]); done.
Qed.

Lemma running_insert (l : list (JobPc Frame)) i pc pc' :
  l !! i = Some pc →
  length (filter (λ pc, is_running pc = true) (<[i:=pc']> l))
    + (if is_running pc then 1 else 0)
  = length (filter (λ pc, is_running pc = true) l)
    + (if is_running pc' then 1 else 0).
Proof.
  revert i. induction l as [|x l IH]; intros [|i] Hi; simplify_eq/=.
  - rewrite !filter_cons.
    destruct (is_running pc) eqn:Hpc, (is_running pc') eqn:Hpc';
      repeat case_decide; simpl; try done; lia.
  - rewrite !filter_cons. specialize (IH i Hi).
    case_decide; simpl; lia.
Qed.

Lemma pool_ok_step s t s' : pool_ok s → step c s t = Some s' → pool_ok s'.
Proof.
  intros [Hrun Hfifo] Hstep. destruct t as [|i]; simpl in Hstep.
  - destruct (step_main_futures _ _ Hstep) as [Hf|[Hf|Hf]];
      unfold pool_ok, running; rewrite Hf.
    + done.
    + split.
      * rewrite filter_app, length_app. simpl. unfold running in Hrun. lia.
      * intros i j pc Hij Hi Hj.
        destruct (decide (j < length (st_futures s))) as [Hlt|Hge].
        -- rewrite lookup_app_l in Hi, Hj by lia.
           exact (Hfifo i j pc Hij Hi Hj).
        -- rewrite lookup_app_r in Hj by lia.
           destruct (j - length (st_futures s)); simpl in Hj; [congruence|].
           by rewrite lookup_nil in Hj.
    + split; [simpl; lia|]. intros i j pc _ Hi. by rewrite lookup_nil in Hi.
  - destruct (st_futures s !! i) as [pc|] eqn:Hi; [|done].
    destruct (step_job_pool _ _ _ _ Hstep) as (pc' & Hf & Hnp & Hstart & Hkeep).
    pose proof (running_insert _ _ _ pc' Hi) as Hcount.
    unfold pool_ok, running. rewrite Hf. unfold running in Hrun. split.
    + destruct (is_pending pc) eqn:Hpc.
      * specialize (Hstart eq_refl). unfold can_start in Hstart.
        apply andb_true_iff in Hstart as [_ Hlt%Nat.ltb_lt].
        unfold running in Hlt.
        destruct pc; try done. simpl in Hcount.
        destruct (is_running pc'); lia.
      * specialize (Hkeep eq_refl).
        destruct (is_running pc') eqn:Hr'; [rewrite Hkeep in Hcount by done|];
          destruct (is_running pc); lia.
    + intros i' j pc0 Hij Hi' Hj.
      destruct (decide (i' = i)) as [->|Hne].
      { rewrite list_lookup_insert_eq in Hi'
          by (by apply lookup_lt_is_Some; eauto).
        injection Hi' as Hi'. by rewrite Hi' in Hnp. }
      rewrite list_lookup_insert_ne in Hi' by done.
      destruct (decide (j = i)) as [->|Hnj].
      * exfalso. destruct (is_pending pc) eqn:Hpc.
        -- specialize (Hstart eq_refl). unfold can_start in Hstart.
           apply andb_true_iff in Hstart as [Hall _].
           apply forallb_Forall in Hall. rewrite Forall_lookup in Hall.
           specialize (Hall i' JPending).
           rewrite lookup_take_lt in Hall by lia. by specialize (Hall Hi').
        -- by rewrite (Hfifo i' i pc Hij Hi' Hi) in Hpc.
      * rewrite list_lookup_insert_ne in Hj by done.
        exact (Hfifo i' j pc0 Hij Hi' Hj).
Qed.

Lemma elem_of_job_history_start i p pc :
  is_pending pc = false → EvStart i ∈ job_history c i p pc.
Proof.
  intros Hpc. unfold job_history.
  destruct pc as [| | | | |? [?|]| |[[]|]]; try done;
    destruct (page_seekable p); simpl; rewrite ?elem_of_cons; eauto 10.
Qed.

(** X8. The pool never has more jobs on its workers than [max_workers], and
    it takes the jobs from its queue in the order of their submission: when
    a job has started, the jobs of all earlier pages have started too. *)
Theorem pool_bounded_in_order sched s :
  run c (init d0 f0) sched = Some s →
  running s ≤ max_workers c ∧
  (∀ i j pc, i ≤ j → st_futures s !! i = Some JPending →
     st_futures s !! j = Some pc → pc = JPending) ∧
  (∀ i j, i ≤ j → EvStart j ∈ st_trace s → EvStart i ∈ st_trace s).
Proof.
  intros Hrun.
  pose proof (inv_run _ _ _ _ _ _ (inv_init c d0 f0) Hrun) as HI.
  assert (pool_ok s) as [Hbound Hfifo].
  { apply (run_invariant c pool_ok (init d0 f0) sched s); [|apply pool_ok_step|done].
    split; [unfold running; simpl; lia|].
    intros i j pc _ Hi. by destruct i. }
  split; [done|]. split; [done|].
  intros i j Hij Hin.
  assert (EvStart j ∈ proj (TJob j) (st_trace s)) as Hj
    by (unfold proj; by apply list_elem_of_filter).
  rewrite (inv_job_hist _ _ _ _ HI) in Hj.
  destruct (st_futures s !! j) as [pcj|] eqn:Hpcj; [|by apply elem_of_nil in Hj].
  destruct (lookup_lt_is_Some_2 (st_futures s) i) as [pci Hpci].
  { apply lookup_lt_Some in Hpcj. lia. }
  assert (is_pending pcj = false) as Hnp.
  { destruct pcj; try done. by apply elem_of_nil in Hj. }
  assert (is_pending pci = false) as Hnpi.
  { destruct pci; try done. by rewrite (Hfifo i j pcj Hij Hpci Hpcj) in Hnp. }
  apply (elem_of_proj _ (TJob i)).
  rewrite (inv_job_hist _ _ _ _ HI), Hpci.
  by apply elem_of_job_history_start.
Qed.

(** *** Two runs of one call *)

(** The jobs and the histories at the end of a call. *)
Lemma final_histories sched s :
  run c (init d0 f0) sched = Some s → finished s = true →
  st_futures s =
    (λ i, JFinished (outcome c i (default [] (container c f0) !! i)))
    <$> seq 0 (from_option length 0 (container c f0)) ∧
  proj TMain (st_trace s) =
    match container c f0 with
    | Some pages => main_history (length pages) MReturned
    | None => main_history 0 (MRaised (early_error c f0))
    end ∧
  ∀ i, proj (TJob i) (st_trace s) =
       match st_futures s !! i with
       | Some pc => job_history c i (default [] (container c f0) !! i) pc
       | None => []
       end.
Proof.
  intros Hrun Hfin.
  pose proof (inv_run _ _ _ _ _ _ (inv_init c d0 f0) Hrun) as HI.
  destruct (final_fs c d0 f0 sched s Hrun Hfin) as [_ Hres].
  pose proof (inv_main_hist _ _ _ _ HI) as Hmain.
  pose proof (inv_job_hist _ _ _ _ HI) as Hjob.
  unfold result in Hres.
  destruct (st_main s) eqn:Hm; try done.
  - destruct (container c f0) as [pages|] eqn:Hc; [|done].
    destruct (returned_jobs c d0 f0 s pages HI Hm Hc) as [Hlen Hjobs].
    destruct (inv_img _ _ _ _ HI) as [Him _]; [rewrite Hm; simpl; lia|].
    assert (img_pages s = pages) as Hpg
      by (unfold img_pages; by rewrite Him, Hc).
    split; [|split].
    + simpl. apply list_eq. intros i. rewrite list_lookup_fmap.
      destruct (decide (i < length pages)) as [Hi|Hi].
      * rewrite (Hjobs i Hi), lookup_seq_lt by done. reflexivity.
      * rewrite lookup_seq_ge by lia.
        apply lookup_ge_None_2. lia.
    + rewrite Hmain. f_equal. rewrite (inv_total _ _ _ _ HI), Hpg; [done|].
      rewrite Hm. simpl. lia.
    + intros i. by rewrite Hjob, Hpg.
  - destruct (container c f0) as [pages|] eqn:Hc; [done|].
    injection Hres as ->.
    destruct (inv_early _ _ _ _ HI) as [Hf _]; [rewrite Hm; simpl; lia|].
    split; [by rewrite Hf|]. split.
    + rewrite Hmain, (inv_total0 _ _ _ _ HI); [done|]. rewrite Hm. simpl. lia.
    + intros i. by rewrite Hjob, Hf.
Qed.

(** When the call is over, the lock is free. *)
Lemma finished_unlocked s : Inv s → finished s = true → st_locked s = false.
Proof.
  intros HI Hfin. destruct (st_locked s) eqn:Hl; [|done].
  apply (inv_locked _ _ _ _ HI) in Hl as (i & pc & Hi & Hsec).
  unfold finished in Hfin. destruct (st_main s) eqn:Hm; try done.
  - pose proof (inv_joined _ _ _ _ HI) as Hj. rewrite Hm in Hj.
    specialize (Hj ltac:(simpl; lia)). rewrite Forall_lookup in Hj.
    pose proof (Hj i pc Hi). by destruct pc.
  - destruct (inv_early _ _ _ _ HI) as [Hf _]; [rewrite Hm; simpl; lia|].
    by rewrite Hf in Hi.
Qed.

(** X9. Two runs of one call to its end differ in the interleaving only:
    whatever the schedules, the futures hold the same outcomes, the counter
    of the bar is the same, and every thread, the main one and each job, has
    gone through the same events in the same order. *)
Theorem runs_differ_in_interleaving_only sched s sched' s' :
  run c (init d0 f0) sched = Some s → finished s = true →
  run c (init d0 f0) sched' = Some s' → finished s' = true →
  st_futures s = st_futures s' ∧
  st_pbar s = st_pbar s' ∧
  st_locked s = st_locked s' ∧
  ∀ t, proj t (st_trace s) = proj t (st_trace s').
Proof.
  intros Hrun Hfin Hrun' Hfin'.
  destruct (final_histories sched s Hrun Hfin) as (Hf & Hmain & Hjob).
  destruct (final_histories sched' s' Hrun' Hfin') as (Hf' & Hmain' & Hjob').
  pose proof (inv_run _ _ _ _ _ _ (inv_init c d0 f0) Hrun) as HI.
  pose proof (inv_run _ _ _ _ _ _ (inv_init c d0 f0) Hrun') as HI'.
  assert (st_futures s = st_futures s') as Heq by congruence.
  split; [done|]. split; [|split].
  - destruct (progress_counter c d0 f0 _ s Hrun) as (_ & _ & Hp).
    destruct (progress_counter c d0 f0 _ s' Hrun') as (_ & _ & Hp').
    pose proof (pbar_zero_before c d0 f0 _ _ Hrun) as Hz.
    pose proof (pbar_zero_before c d0 f0 _ _ Hrun') as Hz'.
    pose proof (total_pages s HI) as Ht.
    pose proof (total_pages s' HI') as Ht'.
    destruct (final_fs c d0 f0 sched s Hrun Hfin) as [_ Hres].
    destruct (final_fs c d0 f0 sched' s' Hrun' Hfin') as [_ Hres'].
    rewrite Hres in Hp. rewrite Hres' in Hp'.
    unfold result in Hres, Hres'.
    destruct (container c f0) as [pages|] eqn:Hc.
    + destruct (Hp eq_refl) as [-> _]. destruct (Hp' eq_refl) as [-> _].
      destruct (st_main s), (st_main s'); simplify_eq/=.
      rewrite Ht, Ht'; lia.
    + destruct (st_main s), (st_main s'); simplify_eq/=.
      rewrite Hz, Hz'; lia.
  - by rewrite !finished_unlocked.
  - intros [|i]; [congruence|]. by rewrite Hjob, Hjob', Heq.
Qed.

End Safety.

(** ** The theorems on the small instance *)

Import Demo.

(** The state that a schedule of the goal leads to. *)
Ltac run_to s Hrun :=
  match goal with
  | |- context [run ?c ?s0 ?sched] =>
      let H := fresh in
      assert (from_option (λ _, true) false (run c s0 sched) = true) as H
        by (vm_compute; reflexivity);
      destruct (run c s0 sched) as [s|] eqn:Hrun; [clear H|discriminate H]
  end.

(** A fact about that state, by running the schedule. *)
Ltac from_run Hrun :=
  match type of Hrun with
  | ?r = Some ?s =>
      pattern s;
      match goal with
      | |- ?P s =>
          let H := fresh in
          assert (from_option P True r) as H by (vm_compute; reflexivity);
          rewrite Hrun in H; exact H
      end
  end.

(** The path scheme on concrete indices. *)
Lemma frame_paths_injective_witness :
  jpeg_filename "out" 3 ≠ jpeg_filename "out" 100003 ∧
  String.length (format_05d 3) = 5 ∧ 5 < String.length (format_05d 100003).
Proof.
  destruct (frame_paths_injective (call 2) ∅ (disk pages3))
    as (Hinj & _ & _ & Hsmall & Hlarge & _).
  split; [|split].
  - intros H. apply Hinj in H. discriminate H.
  - apply Hsmall. lia.
  - apply Hlarge. lia.
Defined.

(** Job 0 inside the [with] block, job 1 waiting at its entry; and a state
    with all three jobs at their [save]. *)
Lemma exclusive_section_witness :
  (∃ s, run (call 4) (start pages3)
          (main_first 3 ++ replicate 3 (TJob 0) ++ replicate 2 (TJob 1)) = Some s ∧
        st_locked s = true ∧ step (call 4) s (TJob 1) = None) ∧
  (∃ sched s, run (call 4) (start pages3) sched = Some s ∧
     ∀ i, i < 3 → ∃ frame,
       st_futures s !! i = Some (JLine21 (frame_path (call 4) i) frame)).
Proof.
  destruct (exclusive_section (call 4) ∅ (disk pages3)) as [Hsafe Hsaves].
  split.
  - run_to s Hrun. exists s. split; [reflexivity|].
    split; [from_run Hrun|].
    destruct (Hsafe _ s Hrun) as (_ & _ & Hblock).
    destruct (Hblock 1 "out/00001.jpg") as [Hb _]; [from_run Hrun|].
    apply Hb. from_run Hrun.
  - destruct (Hsaves pages3) as (sched & s & Hrun & _ & Hall).
    + reflexivity.
    + intros i Hi. destruct i as [|[|[|i]]]; [by eexists..|simpl in Hi; lia].
    + simpl. lia.
    + by exists sched, s.
Defined.

(** Job 0 decodes its page: it holds the lock, and the page is page 0. *)
Lemma seek_decode_inside_save_outside_witness :
  ∃ s pre,
    run (call 2) (start pages3) (main_first 3 ++ replicate 5 (TJob 0)) = Some s ∧
    st_trace s = [] ++ EvConvert 0 0 true :: pre ∧
    holding 0 pre = true ∧ holding 1 pre = false.
Proof.
  run_to s Hrun.
  assert (st_trace s = [] ++ EvConvert 0 0 true ::
            [EvSeek 0 true; EvAcquire 0; EvName 0 "out/00000.jpg"; EvStart 0;
             EvUpdated; EvUpdate 3; EvUpdate 2; EvUpdate 1; EvSubmitted;
             EvSubmit 2; EvSubmit 1; EvSubmit 0; EvPool; EvPbar 3; EvNewLock;
             EvNFrames 3; EvOpen true; EvMakedirs]) as Htr
    by from_run Hrun.
  eexists s, _. split; [reflexivity|]. split; [exact Htr|].
  destruct (seek_decode_inside_save_outside (call 2) ∅ (disk pages3)
              _ _ _ _ _ Hrun Htr) as (Hin & Hone & _).
  split; [exact Hin|]. reflexivity.
Defined.

(** Page 3 of five is corrupt: job 3 stands at its [convert] with the lock
    held; two steps later the lock is free and the exception is in the
    future of the job. *)
Lemma lock_released_on_failure_witness :
  ∃ s, run (call 2) (start pages5)
         (main_first 5 ++ replicate 7 (TJob 0) ++ replicate 7 (TJob 1)
          ++ replicate 7 (TJob 2) ++ replicate 4 (TJob 3)) = Some s ∧
       st_locked s = true ∧
       ∃ s', run (call 2) s [TJob 3; TJob 3] = Some s' ∧
             st_locked s' = false ∧
             st_futures s' !! 3 = Some (JFinished (Some PageReadError)).
Proof.
  run_to s Hrun. exists s. split; [reflexivity|]. split; [from_run Hrun|].
  destruct (lock_released_on_failure (call 2) ∅ (disk pages5) _ s Hrun)
    as (_ & Hconv & _).
  apply (Hconv 3 "out/00003.jpg"); from_run Hrun.
Defined.

(** A complete run on three pages: one open, one close. *)
Lemma image_lifecycle_witness :
  ∃ s, run (call 2) (start pages3) (in_turn pages3) = Some s ∧
       length (filter (λ ev, is_open_ev ev = true) (st_trace s)) = 1 ∧
       length (filter (λ ev, is_close_ev ev = true) (st_trace s)) = 1.
Proof.
  run_to s Hrun. exists s. split; [reflexivity|].
  destruct (image_lifecycle (call 2) ∅ (disk pages3) _ s Hrun)
    as (_ & _ & Hret & _).
  apply Hret. from_run Hrun.
Defined.


(** The input file is missing and the output folder is a regular file: the
    call raises at line 31, before the image is opened, and there is no
    output folder.  And the input file is a JPEG image: it opens, the call
    raises at line 35 and the image is closed. *)
Lemma makedirs_error_comes_first :
  (∃ s, run (call 2)
          (init (Page:=page) (Frame:=nat) ∅ {[ "out" := Junk ]}) [TMain]
        = Some s ∧
        finished s = true ∧ result s = Some (RRaise DirError) ∧
        st_trace s = [EvMakedirsError] ∧ st_dirs s = ∅) ∧
  (∃ s, run (call 2)
          (init (Page:=page) (Frame:=nat) ∅ {[ "in.tif" := Jpeg 7 ]})
          [TMain; TMain; TMain; TMain]
        = Some s ∧
        finished s = true ∧ result s = Some (RRaise CountError) ∧
        st_trace s = [EvClose; EvNFramesError; EvOpen true; EvMakedirs]).
Proof.
  split.
  - run_to s Hrun. exists s. split; [reflexivity|].
    repeat split; from_run Hrun.
  - run_to s Hrun. exists s. split; [reflexivity|].
    repeat split; from_run Hrun.
Qed.

(** Three pages: the counter can stand at 3 with no job finished. *)
Lemma progress_counter_runs_ahead_witness :
  ∃ sched s, run (call 2) (start pages3) sched = Some s ∧
             st_pbar s = 3 ∧ finished_jobs s = 0.
Proof.
  destruct (progress_counter_runs_ahead (call 2) ∅ (disk pages3) pages3)
    as (sched & s & Hrun & Hp & _ & Hf); [reflexivity|].
  by exists sched, s.
Defined.




(** A container of three pages that can all be reached and decoded, of which
    page 1 cannot be saved: the call returns None and leaves two files, the
    exception of [save] in the future of job 1.  And the same container
    where the output folder is a regular file: no file at all. *)
Lemma unsaved_frame_leaves_no_file :
  (∃ s, run (call 2) (start pages3_big) (in_turn pages3_big) = Some s ∧
        container (call 2) (disk pages3_big) = Some pages3_big ∧
        page_frame (pages3_big !! 1) = Some 5000 ∧
        finished s = true ∧ result s = Some RNone ∧
        length (st_futures s) = 3 ∧
        st_futures s !! 1 = Some (JFinished (Some WriteError)) ∧
        st_files s !! "out/00000.jpg" = Some (Jpeg 10) ∧
        st_files s !! "out/00001.jpg" = None ∧
        st_files s !! "out/00002.jpg" = Some (Jpeg 12)) ∧
  (∃ s, run (call 2)
          (init (Page:=page) (Frame:=nat) ∅
             (<[ "out" := Junk ]> (disk pages3))) [TMain]
        = Some s ∧
        finished s = true ∧ result s = Some (RRaise DirError) ∧
        st_futures s = [] ∧
        st_files s !! "out/00000.jpg" = None).
Proof.
  split.
  - run_to s Hrun. exists s. split; [reflexivity|].
    split; [vm_compute; reflexivity|]. split; [reflexivity|].
    repeat split; from_run Hrun.
  - run_to s Hrun. exists s. split; [reflexivity|].
    repeat split; from_run Hrun.
Qed.

(** A second call, with another pool and another schedule, on what the first
    call left: page 1 is written in both, to the same content. *)
Lemma rerun_same_files_witness :
  ∃ s1 s2,
    run (call 2) (start pages3) (in_turn pages3) = Some s1 ∧
    run (call 3) (init (Page:=page) (Frame:=nat) (st_dirs s1) (st_files s1))
      interleaved3 = Some s2 ∧
    EvSave 1 "out/00001.jpg" ∈ st_trace s1 ∧
    st_files s1 !! "out/00001.jpg" = Some (Jpeg 11) ∧
    EvSave 1 "out/00001.jpg" ∈ st_trace s2 ∧
    st_files s2 !! "out/00001.jpg" = Some (Jpeg 11) ∧
    st_files s2 = st_files s1 ∧ st_dirs s2 = st_dirs s1.
Proof.
  run_to s1 Hrun1.
  assert (from_option
            (λ s1, from_option finished false
                     (run (call 3)
                        (init (Page:=page) (Frame:=nat) (st_dirs s1) (st_files s1))
                        interleaved3) = true)
            True (run (call 2) (start pages3) (in_turn pages3))) as Hfin2
    by (vm_compute; reflexivity).
  rewrite Hrun1 in Hfin2. cbn [from_option] in Hfin2.
  destruct (run (call 3) (init (Page:=page) (Frame:=nat) (st_dirs s1) (st_files s1))
              interleaved3) as [s2|] eqn:Hrun2; [|discriminate Hfin2].
  cbn [from_option] in Hfin2.
  exists s1, s2. split; [reflexivity|]. split; [exact Hrun2|].
  destruct (rerun_same_files (call 2) ∅ (disk pages3) (call 3) pages3
              eq_refl eq_refl) as [_ Hall].
  - reflexivity.
  - intros i _ H. unfold frame_path in H.
    rewrite path_join_frame_name in H. discriminate H.
  - intros i frame _ _ _. simpl. destruct (disk pages3 !! _); reflexivity.
  - simpl. lia.
  - simpl. lia.
  - destruct (Hall _ s1 Hrun1) as [_ Hall2]; [from_run Hrun1|].
    destruct (Hall2 _ s2 Hrun2 Hfin2) as (_ & _ & Hpage & Hf & Hd & _).
    destruct (Hpage 1 11) as (Hs1 & Hf1 & Hs2 & Hf2);
      [simpl; lia|reflexivity|reflexivity|].
    exact (conj Hs1 (conj Hf1 (conj Hs2 (conj Hf2 (conj Hf Hd))))).
Defined.

(** The bar after two updates on three pages. *)
Lemma counter_counts_up_witness :
  ∃ s, run (call 2) (start pages3) (replicate 12 TMain) = Some s ∧
       st_pbar s = 2 ∧
       filter (λ ev, is_update_ev ev = true) (st_trace s)
         = [EvUpdate 2; EvUpdate 1].
Proof.
  run_to s Hrun. exists s. split; [reflexivity|].
  assert (st_pbar s = 2) as Hp by from_run Hrun.
  split; [exact Hp|].
  destruct (counter_counts_up (call 2) ∅ (disk pages3) [] (start pages3)
              (replicate 12 TMain) s eq_refl Hrun) as (_ & _ & Hupd & _).
  rewrite Hp in Hupd. exact Hupd.
Defined.

(** A complete run on three pages: 38 steps, and then nothing moves. *)
Lemma call_terminates_witness :
  ∃ s, run (call 2) (start pages3) (in_turn pages3) = Some s ∧
       length (in_turn pages3) ≤ 10 * 3 + 11 ∧
       ∀ t, step (call 2) s t = None.
Proof.
  run_to s Hrun. exists s. split; [reflexivity|].
  destruct (call_terminates (call 2) ∅ (disk pages3) (in_turn pages3) s Hrun)
    as (Hlen & _ & _ & Hstuck).
  split; [exact Hlen|]. apply Hstuck. from_run Hrun.
Defined.

(** Page 3 of five cannot be decoded: its path stays empty, and the input
    file is as it was. *)
Lemma files_change_at_saves_only_witness :
  ∃ s, run (call 2) (start pages5) (in_turn pages5) = Some s ∧
       st_files s !! "out/00003.jpg" = None ∧
       st_files s !! "in.tif" = Some (Tiff pages5).
Proof.
  run_to s Hrun. exists s. split; [reflexivity|].
  destruct (files_change_at_saves_only (call 2) ∅ (disk pages5)
              (in_turn pages5) s Hrun)
    as (_ & _ & _ & _ & _ & Hbad & Hin & _).
  split.
  - apply (Hbad pages5 3); reflexivity.
  - apply Hin. intros i H. unfold frame_path in H.
    rewrite path_join_frame_name in H. discriminate H.
Defined.


(** Three pages and two workers: two jobs have started, in order. *)
Lemma pool_bounded_in_order_witness :
  ∃ s, run (call 2) (start pages3) (main_first 3 ++ [TJob 0; TJob 1]) = Some s ∧
       running s ≤ 2 ∧ st_futures s !! 2 = Some JPending ∧
       EvStart 0 ∈ st_trace s.
Proof.
  run_to s Hrun. exists s. split; [reflexivity|].
  destruct (pool_bounded_in_order (call 2) ∅ (disk pages3) _ s Hrun)
    as (Hbound & _ & Horder).
  split; [exact Hbound|]. split; [from_run Hrun|].
  apply (Horder 0 1); [lia|].
  assert (st_trace s =
            [EvStart 1; EvStart 0; EvUpdated; EvUpdate 3; EvUpdate 2;
             EvUpdate 1; EvSubmitted; EvSubmit 2; EvSubmit 1; EvSubmit 0;
             EvPool; EvPbar 3; EvNewLock; EvNFrames 3; EvOpen true;
             EvMakedirs]) as -> by from_run Hrun.
  apply list_elem_of_here.
Defined.

(** Two schedules of one call on three pages. *)
Lemma runs_differ_in_interleaving_only_witness :
  ∃ s s',
    run (call 3) (start pages3) (in_turn pages3) = Some s ∧
    run (call 3) (start pages3) interleaved3 = Some s' ∧
    st_futures s = st_futures s' ∧
    proj (TJob 1) (st_trace s) = proj (TJob 1) (st_trace s').
Proof.
  run_to s Hrun. run_to s' Hrun'. exists s, s'.
  split; [reflexivity|]. split; [reflexivity|].
  destruct (runs_differ_in_interleaving_only (call 3) ∅ (disk pages3)
              (in_turn pages3) s interleaved3 s' Hrun) as (Hf & _ & _ & Hh);
    [from_run Hrun|exact Hrun'|from_run Hrun'|].
  split; [exact Hf|apply Hh].
Defined.

(** Two names below the bound, and two paths in one folder. *)
Lemma frame_names_sorted_witness :
  String.compare (frame_name 7) (frame_name 12) = Lt ∧
  String.compare (jpeg_filename "out" 99999) (jpeg_filename "out" 99998) = Gt.
Proof.
  destruct frame_names_sorted as [H _].
  destruct (H "out" 7%Z 12%Z) as [H1 _]; [lia..|].
  destruct (H "out" 99999%Z 99998%Z) as [_ H2]; [lia..|].
  split; [exact H1|exact H2].
Defined.
